(** * Narratium.ai node pipeline: the node lifecycle of [NodeBase]

    A shallow embedding of [src/lib/nodeflow/NodeBase.ts] and of the
    [executeMethod] entry point of the tool classes
    ([WorldBookNodeTools.ts], [PresetNodeTools.ts]), followed by the
    properties of input resolution, output publication, the [execute]
    wrapper and tool dispatch.

    Modelling conventions.
    - A JavaScript object used as a string-keyed record ([NodeInput],
      [NodeOutput], the stores of the context, [inputMapping]) is a
      [gmap string _] of its own properties.  A property may hold
      [undefined], which is different from the property being absent.
      The members that a plain object inherits from [Object.prototype] are
      not in the map: a read or a write of the code is described at the
      names that are not such members (see [ordinary]), and the values are
      the primitive ones.
    - [async] methods are run to completion: a rejected promise and a
      thrown exception are both the outcome [Thrown].
    - Side effects are explicit: a computation is a function from a state
      to an outcome and a new state, and the state reached when an
      exception is thrown is kept (JavaScript does not roll back). *)

From stdpp Require Import gmap strings list fin_maps.
From Stdlib Require Import ZArith Ascii.
From stdpp Require Import pretty.

Local Open Scope string_scope.
Local Open Scope Z_scope.

(** ** JavaScript values *)

Inductive value : Type :=
  | VUndefined
  | VNull
  | VBool (b : bool)
  | VNum (z : Z)
  | VStr (s : string).

#[global] Instance value_eq_dec : EqDecision value.
Proof. solve_decision. Defined.

(** [Error] objects, identified by their message. *)
Record Error : Type := mkError { message : string }.

#[global] Instance Error_eq_dec : EqDecision Error.
Proof. solve_decision. Defined.

(** [a || b] on strings, where the left operand may be [undefined]
    (a property that is not there): the empty string is falsy as well. *)
Definition or_string (a : option string) (b : string) : string :=
  match a with
  | Some s => if decide (s = "") then b else s
  | None => b
  end.

(** [x !== undefined] for a property read [o[k]]: the read of a property that
    is not there gives [undefined] (at a name that the object does not
    inherit from [Object.prototype]). *)
Definition read (o : gmap string value) (k : string) : value :=
  default VUndefined (o !! k).

Definition is_defined (v : value) : bool :=
  bool_decide (v ≠ VUndefined).

(** ** Effects: state and exceptions *)

Inductive Outcome (A : Type) : Type :=
  | Returned (a : A)
  | Thrown (e : Error).
Arguments Returned {A} a.
Arguments Thrown {A} e.

Definition Eff (S A : Type) : Type := S → Outcome A * S.

Definition ret {S A} (a : A) : Eff S A := fun s => (Returned a, s).

Definition throw {S A} (e : Error) : Eff S A := fun s => (Thrown e, s).

Definition bind {S A B} (m : Eff S A) (k : A → Eff S B) : Eff S B :=
  fun s =>
    match m s with
    | (Returned a, s') => k a s'
    | (Thrown e, s') => (Thrown e, s')
    end.

(** The notations [x ← m; k] and [m;; k] of stdpp's monads. *)
#[global] Instance Eff_ret {S} : MRet (Eff S) := fun A a => ret a.
#[global] Instance Eff_bind {S} : MBind (Eff S) := fun A B k m => bind m k.

(** [try { body } catch (e) { handler e }] *)
Definition try_catch {S A} (body : Eff S A) (handler : Error → Eff S A) : Eff S A :=
  fun s =>
    match body s with
    | (Returned a, s') => (Returned a, s')
    | (Thrown e, s') => handler e s'
    end.

(** [try { body } finally { final }]: [final] runs on both exits; an exception
    of [final] replaces the pending outcome. *)
Definition try_finally {S A} (body : Eff S A) (final : Eff S unit) : Eff S A :=
  fun s =>
    let '(o, s') := body s in
    match final s' with
    | (Returned _, s'') => (o, s'')
    | (Thrown e, s'') => (Thrown e, s'')
    end.

(** [for (const x of xs) { body }], where the loop body updates a local
    object [acc]. *)
Fixpoint for_of {S A B} (xs : list A) (acc : B) (body : A → B → Eff S B) : Eff S B :=
  match xs with
  | [] => ret acc
  | x :: rest => acc' ← body x acc; for_of rest acc' body
  end.

(** Run a computation on a part of the state. *)
Definition zoom {S T A} (get : S → T) (set : T → S → S) (m : Eff T A) : Eff S A :=
  fun s => let '(o, t) := m (get s) in (o, set t s).

Definition gets {S A} (f : S → A) : Eff S A := fun s => (Returned (f s), s).

Definition modify {S} (f : S → S) : Eff S unit := fun s => (Returned tt, f s).

(** ** The environment outside the context: console, clock, node state *)

Inductive Level : Type := LOG | WARN | ERROR.

#[global] Instance Level_eq_dec : EqDecision Level.
Proof. solve_decision. Defined.

Record ConsoleEntry : Type := mkEntry { level : Level; text : string }.

#[global] Instance ConsoleEntry_eq_dec : EqDecision ConsoleEntry.
Proof. solve_decision. Defined.

(** [state] is the node's own [this.state]; [clock] is what [new Date()]
    reads. *)
Record Env : Type := mkEnv {
  console : list ConsoleEntry;
  clock : Z;
  state : gmap string value;
}.

Definition console_emit (l : Level) (msg : string) : Eff Env unit :=
  modify (fun e => mkEnv (console e ++ [mkEntry l msg]) (clock e) (state e)).

Definition console_log := console_emit LOG.
Definition console_warn := console_emit WARN.
Definition console_error := console_emit ERROR.

Definition new_Date : Eff Env Z := gets clock.

(** ** Types of the node flow ([@/lib/nodeflow/types]) *)

(** Modelled from the spec: [types.ts] is not among the sources; the
    enumeration Category is {ENTRY, MIDDLE, EXIT, AFTER}. *)
Inductive NodeCategory : Type := ENTRY | MIDDLE | EXIT | AFTER.

#[global] Instance NodeCategory_eq_dec : EqDecision NodeCategory.
Proof. solve_decision. Defined.

(** Modelled from the spec: [types.ts] is not among the sources; a
    NodeExecutionResult has status in {RUNNING, COMPLETED, FAILED}. *)
Inductive NodeExecutionStatus : Type := RUNNING | COMPLETED | FAILED.

#[global] Instance NodeExecutionStatus_eq_dec : EqDecision NodeExecutionStatus.
Proof. solve_decision. Defined.

Abbreviation NodeInput := (gmap string value).
Abbreviation NodeOutput := (gmap string value).

(** The fields of a [NodeConfig] that [NodeBase] reads or writes; all but
    [id] and [name] are optional. *)
Record NodeConfig : Type := mkNodeConfig {
  cfg_id : string;
  cfg_name : string;
  cfg_category : option NodeCategory;
  cfg_next : option (list string);
  cfg_initParams : option (list string);
  cfg_inputFields : option (list string);
  cfg_outputFields : option (list string);
  cfg_inputMapping : option (gmap string string);
}.

(** [result.input] starts as [{}]; [output], [error] and [endTime] are not
    set when the result is created. *)
Record NodeExecutionResult : Type := mkResult {
  nodeId : string;
  status : NodeExecutionStatus;
  input : NodeInput;
  output : option NodeOutput;
  error : option Error;
  startTime : Z;
  endTime : option Z;
}.

(** ** The execution context ([@/lib/nodeflow/NodeContext]) *)

(** Modelled from the spec: [NodeContext.ts] is not among the sources.  The
    context is three independent key-to-value stores, [input], [cache] and
    [output]; [hasInput]/[hasCache] tell whether a key is there,
    [getInput]/[getCache]/[getOutput] give the value or [undefined],
    [setCache]/[setOutput] write one key. *)
Record NodeContext : Type := mkContext {
  ctx_input : gmap string value;
  ctx_cache : gmap string value;
  ctx_output : gmap string value;
}.

(** Modelled from the spec: [hasInput(key) -> bool]. *)
Definition hasInput (key : string) : Eff NodeContext bool :=
  gets (fun c => bool_decide (is_Some (ctx_input c !! key))).

(** Modelled from the spec: [getInput(key) -> value|undefined]. *)
Definition getInput (key : string) : Eff NodeContext value :=
  gets (fun c => read (ctx_input c) key).

(** Modelled from the spec: [hasCache(key) -> bool]. *)
Definition hasCache (key : string) : Eff NodeContext bool :=
  gets (fun c => bool_decide (is_Some (ctx_cache c !! key))).

(** Modelled from the spec: [getCache(key) -> value|undefined]. *)
Definition getCache (key : string) : Eff NodeContext value :=
  gets (fun c => read (ctx_cache c) key).

(** Modelled from the spec: [setCache(key, value)]. *)
Definition setCache (key : string) (v : value) : Eff NodeContext unit :=
  modify (fun c => mkContext (ctx_input c) (<[key := v]> (ctx_cache c)) (ctx_output c)).

(** Modelled from the spec: [setOutput(key, value)]. *)
Definition setOutput (key : string) (v : value) : Eff NodeContext unit :=
  modify (fun c => mkContext (ctx_input c) (ctx_cache c) (<[key := v]> (ctx_output c))).

(** Modelled from the spec: [getOutput(key) -> value|undefined]. *)
Definition getOutput (key : string) : Eff NodeContext value :=
  gets (fun c => read (ctx_output c) key).

(** What a node execution can touch: the context it is given and the
    environment. *)
Record World : Type := mkWorld {
  context : NodeContext;
  env : Env;
}.

Definition on_context {A} (m : Eff NodeContext A) : Eff World A :=
  zoom context (fun c w => mkWorld c (env w)) m.

Definition on_env {A} (m : Eff Env A) : Eff World A :=
  zoom env (fun e w => mkWorld (context w) e) m.

(** ** Tool classes ([@/lib/nodeflow/NodeTool] and its subclasses) *)

(** What [this[methodName]] finds on a tool class: a function, or a property
    that is not callable (such as [toolType] and [version]). *)
Inductive Member : Type :=
  | Callable (method : list value → Eff Env value)
  | NonCallable (v : value).

(** A tool class: its [toolType], the name of the class (used in one
    diagnostic) and the static properties reachable by name. *)
Record NodeTool : Type := mkNodeTool {
  toolType : string;
  className : string;
  members : gmap string Member;
}.

Definition getToolType (this : NodeTool) : string := toolType this.

Definition is_callable (m : Member) : bool :=
  match m with Callable _ => true | NonCallable _ => false end.

Definition starts_with_underscore (s : string) : bool :=
  match s with
  | String c _ => bool_decide (c = "_"%char)
  | EmptyString => false
  end.

(** [Object.getOwnPropertyNames(this).filter(name => typeof this[name] ===
    "function" && !name.startsWith("_"))] *)
Definition available_methods (this : NodeTool) : list string :=
  filter
    (fun name =>
       match members this !! name with
       | Some m => is_callable m && negb (starts_with_underscore name)
       | None => false
       end = true)
    (map_to_list (members this)).*1.

Definition join_names (names : list string) : string :=
  foldr (fun n acc => n ++ " " ++ acc) "" names.

(** Modelled from the spec: [NodeTool.logExecution] is not among the sources
    and the spec gives it no behaviour of its own; it is taken to log the
    call and return. *)
Definition logExecution (this : NodeTool) (methodName : string) (params : list value)
    : Eff Env unit :=
  console_log ("Executing " ++ getToolType this ++ "." ++ methodName).

(** Modelled from the spec: [NodeTool.handleError] is not among the sources;
    [handleError(error, methodName)] is the single policy point that logs and
    re-raises. *)
Definition handleError {A} (this : NodeTool) (err : Error) (methodName : string)
    : Eff Env A :=
  console_error ("Error in " ++ getToolType this ++ "." ++ methodName ++ ": " ++ message err);;
  throw err.

(** [executeMethod] of [WorldBookNodeTools] and of [PresetNodeTools]: the two
    bodies differ only in the class name of the first diagnostic.  A [catch]
    block that ran to its end would make the method resolve with
    [undefined]. *)
Definition executeMethod (this : NodeTool) (methodName : string) (params : list value)
    : Eff Env value :=
  match members this !! methodName with
  | Some (Callable method) =>
      try_catch
        (logExecution this methodName params;;
         method params)
        (fun err =>
           handleError (A := unit) this err methodName;;
           mret VUndefined)
  | _ =>
      console_error ("Method lookup failed: " ++ methodName ++ " not found in " ++ className this);;
      console_log ("Available methods: " ++ join_names (available_methods this));;
      throw (mkError ("Method " ++ methodName ++ " not found in " ++ getToolType this ++ "Tool"))
  end.

(** The static properties declared by [WorldBookNodeTools]; the bodies of its
    two domain methods call the character store and the prompt assembler,
    which are outside the node flow, and are taken as given.  [executeMethod]
    itself and the members inherited from [NodeTool] are not listed. *)
Definition WorldBookNodeTools
    (assemblePromptWithWorldBook getChatHistory : list value → Eff Env value) : NodeTool :=
  {| toolType := "worldBook";
     className := "WorldBookNodeTools";
     members :=
       {[ "toolType" := NonCallable (VStr "worldBook");
          "version" := NonCallable (VStr "1.0.0");
          "getToolType" := Callable (fun _ => mret (VStr "worldBook"));
          "assemblePromptWithWorldBook" := Callable assemblePromptWithWorldBook;
          "getChatHistory" := Callable getChatHistory ]} |}.

(** The static properties declared by [PresetNodeTools]. *)
Definition PresetNodeTools
    (buildPromptFramework enrichPromptsWithCharacterInfo : list value → Eff Env value) : NodeTool :=
  {| toolType := "preset";
     className := "PresetNodeTools";
     members :=
       {[ "toolType" := NonCallable (VStr "preset");
          "version" := NonCallable (VStr "1.0.0");
          "getToolType" := Callable (fun _ => mret (VStr "preset"));
          "buildPromptFramework" := Callable buildPromptFramework;
          "enrichPromptsWithCharacterInfo" := Callable enrichPromptsWithCharacterInfo ]} |}.

(** Modelled from the spec: [NodeToolRegistry] is not among the sources; it
    associates a node-type name with a tool class, [register] is idempotent
    (registering a type again is a no-op) and [get(typeName)] gives the
    class or [undefined].  [register] is called with the class alone, which
    carries its type name. *)
Record Global : Type := mkGlobal {
  registry : gmap string NodeTool;
  genv : Env;
}.

Definition in_env {A} (m : Eff Env A) : Eff Global A :=
  zoom genv (fun e g => mkGlobal (registry g) e) m.

(** Modelled from the spec: [NodeToolRegistry.register]. *)
Definition NodeToolRegistry_register (toolClass : NodeTool) : Eff Global unit :=
  modify (fun g =>
    match registry g !! getToolType toolClass with
    | Some _ => g
    | None => mkGlobal (<[getToolType toolClass := toolClass]> (registry g)) (genv g)
    end).

(** Modelled from the spec: [NodeToolRegistry.get]. *)
Definition NodeToolRegistry_get (typeName : string) : Eff Global (option NodeTool) :=
  gets (fun g => registry g !! typeName).

(** ** Nodes ([@/lib/nodeflow/NodeBase]) *)

(** [this.params]: the declarations collected by the constructor. *)
Record Params : Type := mkParams {
  initParams : list string;
  inputFields : list string;
  outputFields : list string;
  inputMapping : gmap string string;
}.

(** The fields of a node instance. *)
Record NodeData : Type := mkNodeData {
  id : string;
  name : string;
  category : NodeCategory;
  next : list string;
  toolClass : option NodeTool;
  params : Params;
}.

Definition set_toolClass (tc : option NodeTool) (this : NodeData) : NodeData :=
  mkNodeData (id this) (name this) (category this) (next this) tc (params this).

(** What a concrete node type supplies: the abstract [getDefaultCategory] and
    the methods it may override.  They receive the node and the resolved
    input or the output, never the context. *)
Record NodeClass : Type := mkNodeClass {
  m_getDefaultCategory : NodeCategory;
  m_beforeExecute : NodeData → NodeInput → Eff Env unit;
  m_call : NodeData → NodeInput → Eff Env NodeOutput;
  m_afterExecute : NodeData → NodeOutput → Eff Env unit;
}.

(** A node: an instance together with the methods of its class. *)
Record Node : Type := mkNode {
  class : NodeClass;
  this : NodeData;
}.

(** The local [result] object of [execute], next to the world. *)
Record Frame : Type := mkFrame {
  world : World;
  result : NodeExecutionResult;
}.

Definition in_world {A} (m : Eff World A) : Eff Frame A :=
  zoom world (fun w f => mkFrame w (result f)) m.

(** Run [body] with a fresh local [result] and return the object it leaves. *)
Definition with_frame (result0 : NodeExecutionResult) (body : Eff Frame unit)
    : Eff World NodeExecutionResult :=
  fun w =>
    let '(o, fr) := body (mkFrame w result0) in
    (match o with
     | Returned _ => Returned (result fr)
     | Thrown e => Thrown e
     end, world fr).

Definition set_result (f : NodeExecutionResult → NodeExecutionResult) : Eff Frame unit :=
  modify (fun fr => mkFrame (world fr) (f (result fr))).

Definition with_status (s : NodeExecutionStatus) (r : NodeExecutionResult) :=
  mkResult (nodeId r) s (input r) (output r) (error r) (startTime r) (endTime r).
Definition with_input (i : NodeInput) (r : NodeExecutionResult) :=
  mkResult (nodeId r) (status r) i (output r) (error r) (startTime r) (endTime r).
Definition with_output (o : NodeOutput) (r : NodeExecutionResult) :=
  mkResult (nodeId r) (status r) (input r) (Some o) (error r) (startTime r) (endTime r).
Definition with_error (e : Error) (r : NodeExecutionResult) :=
  mkResult (nodeId r) (status r) (input r) (output r) (Some e) (startTime r) (endTime r).
Definition with_endTime (t : Z) (r : NodeExecutionResult) :=
  mkResult (nodeId r) (status r) (input r) (output r) (error r) (startTime r) (Some t).

Module NodeBase.

Definition getId (this : NodeData) : string := id this.
Definition getName (this : NodeData) : string := name this.
Definition getCategory (this : NodeData) : NodeCategory := category this.
Definition getNext (this : NodeData) : list string := next this.

Definition getInitParams (this : NodeData) : list string := initParams (params this).
Definition getInputFields (this : NodeData) : list string := inputFields (params this).
Definition getOutputFields (this : NodeData) : list string := outputFields (params this).
Definition getInputMapping (this : NodeData) : gmap string string := inputMapping (params this).

Definition isEntryNode (this : NodeData) : bool := bool_decide (category this = ENTRY).
Definition isExitNode (this : NodeData) : bool := bool_decide (category this = EXIT).
Definition isMiddleNode (this : NodeData) : bool := bool_decide (category this = MIDDLE).

Definition getState (key : string) (defaultValue : value) : Eff Env value :=
  gets (fun e =>
    match state e !! key with
    | Some VUndefined | Some VNull | None => defaultValue
    | Some v => v
    end).

Definition setState (key : string) (v : value) : Eff Env unit :=
  modify (fun e => mkEnv (console e) (clock e) (<[key := v]> (state e))).

(** Binds the tool class registered under the node's name, if any. *)
Definition initializeTools (this : NodeData) : Eff Global NodeData :=
  try_catch
    (registeredToolClass ← NodeToolRegistry_get (getName this);
     match registeredToolClass with
     | Some tc => mret (set_toolClass (Some tc) this)
     | None =>
         in_env (console_warn ("找不到节点类型的工具类: " ++ getName this));;
         mret this
     end)
    (fun err =>
       in_env (console_warn ("查找工具类失败: " ++ or_string (Some (message err)) "未知错误"));;
       mret this).

(** The constructor; [config.category] is not read, the category is the
    default of the class. *)
Definition constructor (defaultCategory : NodeCategory) (config : NodeConfig)
    : Eff Global NodeData :=
  initializeTools
    {| id := cfg_id config;
       name := cfg_name config;
       category := defaultCategory;
       next := default [] (cfg_next config);
       toolClass := None;
       params :=
         {| initParams := default [] (cfg_initParams config);
            inputFields := default [] (cfg_inputFields config);
            outputFields := default [] (cfg_outputFields config);
            inputMapping := default ∅ (cfg_inputMapping config) |} |}.

Definition executeTool (this : NodeData) (methodName : string) (params : list value)
    : Eff Env value :=
  match toolClass this with
  | None => throw (mkError ("No tool class available for node type: " ++ getName this))
  | Some tc => executeMethod tc methodName params
  end.

Definition resolveInput (this : NodeData) : Eff World NodeInput :=
  let initParams := getInitParams this in
  let inputFields := getInputFields this in
  let inputMapping := getInputMapping this in
  resolvedInput ← for_of initParams (∅ : NodeInput) (fun fieldName resolvedInput =>
    present ← on_context (hasInput fieldName);
    if present : bool then
      v ← on_context (getInput fieldName);
      mret (<[fieldName := v]> resolvedInput)
    else
      on_env (console_warn
        ("Node " ++ id this ++ ": Required input '" ++ fieldName ++ "' not found in Input"));;
      mret resolvedInput);
  for_of inputFields resolvedInput (fun workflowFieldName resolvedInput =>
    let nodeFieldName := or_string (inputMapping !! workflowFieldName) workflowFieldName in
    present ← on_context (hasCache workflowFieldName);
    if present : bool then
      v ← on_context (getCache workflowFieldName);
      mret (<[nodeFieldName := v]> resolvedInput)
    else
      on_env (console_warn
        ("Node " ++ id this ++ ": Required input '" ++ workflowFieldName
         ++ "' (mapped to node field '" ++ nodeFieldName ++ "') not found in cache"));;
      mret resolvedInput).

Definition publishOutput (this : NodeData) (output : NodeOutput) : Eff World unit :=
  let outputFields := getOutputFields this in
  let storeData (key : string) (v : value) : Eff World unit :=
    match category this with
    | EXIT => on_context (setOutput key v)
    | _ => on_context (setCache key v)
    end in
  for_of outputFields tt (fun fieldName _ =>
    if is_defined (read output fieldName)
    then storeData fieldName (read output fieldName)
    else mret tt).

(** The default hooks only log. *)
Definition beforeExecute (this : NodeData) (input : NodeInput) : Eff Env unit :=
  console_log ("Node " ++ id this ++ ": Processing workflow beforeExecute").

Definition afterExecute (this : NodeData) (output : NodeOutput) : Eff Env unit :=
  console_log ("Node " ++ id this ++ ": Processing workflow afterExecute").

(** The default [_call]: [{ ...input }] when no output field is declared,
    else the declared fields whose value in [input] is not [undefined]. *)
Definition _call (this : NodeData) (input : NodeInput) : Eff Env NodeOutput :=
  let outputFields := getOutputFields this in
  if bool_decide (length outputFields = 0%nat) then mret input
  else
    for_of outputFields (∅ : NodeOutput) (fun field output =>
      if is_defined (read input field)
      then mret (<[field := read input field]> output)
      else mret output).

Definition execute_body (n : Node) : Eff Frame unit :=
  try_finally
    (try_catch
       (resolvedNodeInput ← in_world (resolveInput (this n));
        in_world (on_env (m_beforeExecute (class n) (this n) resolvedNodeInput));;
        set_result (with_input resolvedNodeInput);;
        output ← in_world (on_env (m_call (class n) (this n) resolvedNodeInput));
        in_world (publishOutput (this n) output);;
        in_world (on_env (m_afterExecute (class n) (this n) output));;
        set_result (with_status COMPLETED);;
        set_result (with_output output))
       (fun err =>
          set_result (with_status FAILED);;
          set_result (with_error err)))
    (t ← in_world (on_env new_Date);
     set_result (with_endTime t)).

Definition execute (n : Node) : Eff World NodeExecutionResult :=
  startTime ← on_env new_Date;
  with_frame
    {| nodeId := id (this n); status := RUNNING; input := ∅; output := None;
       error := None; startTime := startTime; endTime := None |}
    (execute_body n).

Definition toJSON (this : NodeData) : NodeConfig :=
  {| cfg_id := id this; cfg_name := name this; cfg_category := Some (category this);
     cfg_next := Some (next this); cfg_initParams := None; cfg_inputFields := None;
     cfg_outputFields := None; cfg_inputMapping := None |}.

End NodeBase.

(** ** Concrete node types *)

(** [UserInputNode]: the entry node; every method defers to the base. *)
Module UserInputNode.

Definition nodeName : string := "userInput".

Definition getDefaultCategory : NodeCategory := ENTRY.

Definition beforeExecute (this : NodeData) (input : NodeInput) : Eff Env unit :=
  NodeBase.beforeExecute this input.

Definition afterExecute (this : NodeData) (output : NodeOutput) : Eff Env unit :=
  NodeBase.afterExecute this output.

Definition _call (this : NodeData) (input : NodeInput) : Eff Env NodeOutput :=
  NodeBase._call this input.

Definition methods : NodeClass :=
  {| m_getDefaultCategory := getDefaultCategory;
     m_beforeExecute := beforeExecute;
     m_call := _call;
     m_afterExecute := afterExecute |}.

Definition constructor (config : NodeConfig) : Eff Global Node :=
  this ← NodeBase.constructor getDefaultCategory config;
  mret (mkNode methods this).

End UserInputNode.

(** [WorldBookNode]: the constructor registers the tool class, runs the base
    constructor and then binds the tool class itself. *)
Module WorldBookNode.

Definition nodeName : string := "worldBook".

Definition getDefaultCategory : NodeCategory := MIDDLE.

Definition constructor
    (assemblePromptWithWorldBook getChatHistory : list value → Eff Env value)
    (config : NodeConfig) : Eff Global NodeData :=
  NodeToolRegistry_register (WorldBookNodeTools assemblePromptWithWorldBook getChatHistory);;
  this ← NodeBase.constructor getDefaultCategory config;
  mret (set_toolClass
          (Some (WorldBookNodeTools assemblePromptWithWorldBook getChatHistory)) this).

End WorldBookNode.

(** [PresetNode]: same constructor pattern with [PresetNodeTools]. *)
Module PresetNode.

Definition nodeName : string := "preset".

Definition getDefaultCategory : NodeCategory := MIDDLE.

Definition constructor
    (buildPromptFramework enrichPromptsWithCharacterInfo : list value → Eff Env value)
    (config : NodeConfig) : Eff Global NodeData :=
  NodeToolRegistry_register
    (PresetNodeTools buildPromptFramework enrichPromptsWithCharacterInfo);;
  this ← NodeBase.constructor getDefaultCategory config;
  mret (set_toolClass
          (Some (PresetNodeTools buildPromptFramework enrichPromptsWithCharacterInfo)) this).

End PresetNode.

(** ** Specification vocabulary *)

(** The destination key of a workflow field, as [resolveInput] computes it:
    the mapped name when it is a non-empty string, else the field itself. *)
Definition destination (this : NodeData) (workflowFieldName : string) : string :=
  or_string (NodeBase.getInputMapping this !! workflowFieldName) workflowFieldName.

(** Following the spec's words: "look up inputMapping[name] (default: name
    itself) as the destination key". *)
Definition destination_as_stated (this : NodeData) (workflowFieldName : string) : string :=
  default workflowFieldName (NodeBase.getInputMapping this !! workflowFieldName).

(** The property writes of the two loops of [resolveInput], in program
    order. *)
Definition init_writes (this : NodeData) (c : NodeContext) : list (string * value) :=
  omap (fun f => (fun v => (f, v)) <$> ctx_input c !! f) (NodeBase.getInitParams this).

Definition cache_writes (this : NodeData) (c : NodeContext) : list (string * value) :=
  omap (fun f => (fun v => (destination this f, v)) <$> ctx_cache c !! f)
       (NodeBase.getInputFields this).

Definition apply_writes (ws : list (string * value)) (acc : gmap string value)
    : gmap string value :=
  foldl (fun acc kv => <[kv.1 := kv.2]> acc) acc ws.

(** The last value written under [k], if any. *)
Fixpoint last_write (k : string) (ws : list (string * value)) : option value :=
  match ws with
  | [] => None
  | (k', v) :: rest =>
      match last_write k rest with
      | Some v' => Some v'
      | None => if decide (k' = k) then Some v else None
      end
  end.

Definition resolved_input (this : NodeData) (c : NodeContext) : NodeInput :=
  apply_writes (init_writes this c ++ cache_writes this c) ∅.

(** The two diagnostics of [resolveInput]. *)
Definition init_warning (this : NodeData) (fieldName : string) : ConsoleEntry :=
  mkEntry WARN ("Node " ++ id this ++ ": Required input '" ++ fieldName ++ "' not found in Input").

Definition cache_warning (this : NodeData) (workflowFieldName : string) : ConsoleEntry :=
  mkEntry WARN
    ("Node " ++ id this ++ ": Required input '" ++ workflowFieldName
     ++ "' (mapped to node field '" ++ destination this workflowFieldName
     ++ "') not found in cache").

Definition missing_warnings (this : NodeData) (c : NodeContext) : list ConsoleEntry :=
  omap (fun f => match ctx_input c !! f with
                 | None => Some (init_warning this f)
                 | Some _ => None
                 end) (NodeBase.getInitParams this)
  ++ omap (fun f => match ctx_cache c !! f with
                    | None => Some (cache_warning this f)
                    | Some _ => None
                    end) (NodeBase.getInputFields this).

(** The environment and the world after some console entries. *)
Definition emit_env (entries : list ConsoleEntry) (e : Env) : Env :=
  mkEnv (console e ++ entries) (clock e) (state e).

Definition emit (entries : list ConsoleEntry) (w : World) : World :=
  mkWorld (context w) (emit_env entries (env w)).

(** The fields of [output] that [publishOutput] stores: declared in
    [outputFields] and not [undefined]. *)
Definition publishable (this : NodeData) (output : NodeOutput) : gmap string value :=
  filter (fun kv => kv.1 ∈ NodeBase.getOutputFields this ∧ kv.2 ≠ VUndefined) output.

(** The context after [publishOutput]. *)
Definition published (this : NodeData) (output : NodeOutput) (c : NodeContext) : NodeContext :=
  match category this with
  | EXIT => mkContext (ctx_input c) (ctx_cache c) (publishable this output ∪ ctx_output c)
  | _ => mkContext (ctx_input c) (publishable this output ∪ ctx_cache c) (ctx_output c)
  end.

(** The store a node of this category publishes to. *)
Definition target_store (this : NodeData) (c : NodeContext) : gmap string value :=
  match category this with
  | EXIT => ctx_output c
  | _ => ctx_cache c
  end.

Definition other_store (this : NodeData) (c : NodeContext) : gmap string value :=
  match category this with
  | EXIT => ctx_cache c
  | _ => ctx_output c
  end.

(** No input field that the cache holds is written under [k]. *)
Definition unwritten_by_cache (this : NodeData) (c : NodeContext) (k : string) : Prop :=
  ∀ g, g ∈ NodeBase.getInputFields this → is_Some (ctx_cache c !! g) → destination this g ≠ k.

(** The writes of the loop of [publishOutput], in program order. *)
Definition publish_writes (fields : list string) (output : NodeOutput) : list (string * value) :=
  omap (fun f => if is_defined (read output f) then Some (f, read output f) else None) fields.

(** A sequence of writes sent to the store of the node's category. *)
Definition store_into (this : NodeData) (ws : list (string * value)) (c : NodeContext)
    : NodeContext :=
  match category this with
  | EXIT => mkContext (ctx_input c) (ctx_cache c) (apply_writes ws (ctx_output c))
  | _ => mkContext (ctx_input c) (apply_writes ws (ctx_cache c)) (ctx_output c)
  end.

(** ** Field names and the members of [Object.prototype]

    [resolvedInput], [output], [inputMapping] and [this.state] are plain
    objects, and the code reads them with [o[k]] and writes them with
    [o[k] = v].  On a plain object [o[k]] also finds the members that every
    object inherits from [Object.prototype], and [o["__proto__"] = v] goes
    to the accessor of [Object.prototype] instead of creating a property.
    The maps of own properties above do not describe this: they are what
    the code does at every other name.  The names below are the string-keyed
    members of [Object.prototype]; the statements that depend on which
    properties are read or written are made for names outside this list. *)
Definition Object_prototype_members : list string :=
  [ "__proto__"; "constructor"; "hasOwnProperty"; "isPrototypeOf";
    "propertyIsEnumerable"; "toLocaleString"; "toString"; "valueOf";
    "__defineGetter__"; "__defineSetter__"; "__lookupGetter__"; "__lookupSetter__" ].

(** A name that a plain object does not inherit. *)
Definition ordinary (k : string) : Prop := k ∉ Object_prototype_members.

(** The names under which [resolveInput] reads [inputMapping] and writes
    [resolvedInput] are ordinary. *)
Definition ordinary_inputs (this : NodeData) : Prop :=
  Forall ordinary (NodeBase.getInitParams this)
  ∧ Forall ordinary (NodeBase.getInputFields this)
  ∧ Forall (fun f => ordinary (destination this f)) (NodeBase.getInputFields this).

(** The names under which [publishOutput] and the default [_call] read and
    write are ordinary. *)
Definition ordinary_outputs (this : NodeData) : Prop :=
  Forall ordinary (NodeBase.getOutputFields this).

#[global] Instance ordinary_dec (k : string) : Decision (ordinary k).
Proof. unfold ordinary. apply _. Defined.

#[global] Instance ordinary_inputs_dec (this : NodeData) : Decision (ordinary_inputs this).
Proof. unfold ordinary_inputs. apply _. Defined.

#[global] Instance ordinary_outputs_dec (this : NodeData) : Decision (ordinary_outputs this).
Proof. unfold ordinary_outputs. apply _. Defined.

(** ** The run of [execute], step by step *)

(** The result object when a step threw [err], and on the success path. *)
Definition failed_result (n : Node) (w : World) (input : NodeInput) (err : Error) (t : Z)
    : NodeExecutionResult :=
  {| nodeId := id (this n); status := FAILED; input := input; output := None;
     error := Some err; startTime := clock (env w); endTime := Some t |}.

Definition completed_result (n : Node) (w : World) (input : NodeInput) (out : NodeOutput)
    (t : Z) : NodeExecutionResult :=
  {| nodeId := id (this n); status := COMPLETED; input := input; output := Some out;
     error := None; startTime := clock (env w); endTime := Some t |}.

(** The environment in which [beforeExecute] starts: the one [execute] was
    entered with, after the diagnostics of [resolveInput]. *)
Definition env_resolved (n : Node) (w : World) : Env :=
  emit_env (missing_warnings (this n) (context w)) (env w).

(** Following the spec's words: [execute] orchestrates resolve, then
    [beforeExecute], then [_call], then publishOutput, then [afterExecute];
    each step starts in the environment left by the one before it, and an
    exception of a step ends the run with a FAILED result holding the
    error.  The hooks and [_call] are the only steps that can throw. *)
Inductive Runs (n : Node) (w : World) : NodeExecutionResult → World → Prop :=
  | Runs_beforeExecute_throws err e1 :
      m_beforeExecute (class n) (this n) (resolved_input (this n) (context w))
        (env_resolved n w) = (Thrown err, e1) →
      Runs n w (failed_result n w ∅ err (clock e1)) (mkWorld (context w) e1)
  | Runs_call_throws e1 err e2 :
      m_beforeExecute (class n) (this n) (resolved_input (this n) (context w))
        (env_resolved n w) = (Returned tt, e1) →
      m_call (class n) (this n) (resolved_input (this n) (context w)) e1
        = (Thrown err, e2) →
      Runs n w (failed_result n w (resolved_input (this n) (context w)) err (clock e2))
        (mkWorld (context w) e2)
  | Runs_afterExecute_throws e1 out e2 err e3 :
      m_beforeExecute (class n) (this n) (resolved_input (this n) (context w))
        (env_resolved n w) = (Returned tt, e1) →
      m_call (class n) (this n) (resolved_input (this n) (context w)) e1
        = (Returned out, e2) →
      m_afterExecute (class n) (this n) out e2 = (Thrown err, e3) →
      Runs n w (failed_result n w (resolved_input (this n) (context w)) err (clock e3))
        (mkWorld (published (this n) out (context w)) e3)
  | Runs_completed e1 out e2 e3 :
      m_beforeExecute (class n) (this n) (resolved_input (this n) (context w))
        (env_resolved n w) = (Returned tt, e1) →
      m_call (class n) (this n) (resolved_input (this n) (context w)) e1
        = (Returned out, e2) →
      m_afterExecute (class n) (this n) out e2 = (Returned tt, e3) →
      Runs n w (completed_result n w (resolved_input (this n) (context w)) out (clock e3))
        (mkWorld (published (this n) out (context w)) e3).

(** ** Example nodes and contexts *)

Definition empty_env : Env := mkEnv [] 0 ∅.

Definition make_node (id name : string) (category : NodeCategory)
    (initParams inputFields outputFields : list string)
    (inputMapping : gmap string string) : NodeData :=
  mkNodeData id name category [] None
    (mkParams initParams inputFields outputFields inputMapping).

(** An entry node declaring [initParams = ["x", "y"]]. *)
Definition entry_xy : NodeData :=
  make_node "user-input-1" "userInput" ENTRY ["x"; "y"] [] [] ∅.

(** A run whose parameters supply only [x]. *)
Definition world_x : World :=
  mkWorld (mkContext {[ "x" := VNum 1 ]} ∅ ∅) empty_env.

(** A node reading [userInput] from the cache under the name
    [currentUserInput]. *)
Definition mapped_node : NodeData :=
  make_node "world-book-1" "worldBook" MIDDLE [] ["userInput"] []
    {[ "userInput" := "currentUserInput" ]}.

(** The same node with the mapping entry left empty. *)
Definition blank_mapping_node : NodeData :=
  make_node "world-book-1" "worldBook" MIDDLE [] ["userInput"] []
    {[ "userInput" := "" ]}.

(** A context whose cache holds [userInput = "hi"]. *)
Definition world_hi : World :=
  mkWorld (mkContext ∅ {[ "userInput" := VStr "hi" ]} ∅) empty_env.

(** An exit node and a middle node, both declaring [outputFields = ["a"]]. *)
Definition exit_a : NodeData :=
  make_node "output-1" "output" EXIT [] [] ["a"] ∅.

Definition middle_a : NodeData :=
  make_node "regex-1" "regex" MIDDLE [] [] ["a"] ∅.

(** An output with the declared field [a] and an undeclared field [b]. *)
Definition output_ab : NodeOutput :=
  {[ "a" := VNum 1; "b" := VNum 2 ]}.

Definition empty_world : World :=
  mkWorld (mkContext ∅ ∅ ∅) empty_env.

(** A middle node whose [_call] returns [{a: 1, b: 2}] and whose
    [afterExecute] hook throws. *)
Definition after_throws : NodeClass :=
  {| m_getDefaultCategory := MIDDLE;
     m_beforeExecute := NodeBase.beforeExecute;
     m_call := fun _ _ => mret output_ab;
     m_afterExecute := fun _ _ => throw (mkError "afterExecute failed") |}.

Definition after_throws_node : Node := mkNode after_throws middle_a.

(** Two worlds that differ only in the output store. *)
Definition world_hi_with_output : World :=
  mkWorld (mkContext ∅ {[ "userInput" := VStr "hi" ]}
             {[ "userInput" := VStr "old"; "currentUserInput" := VStr "stale" ]})
          empty_env.

(** [WorldBookNodeTools] with a domain method that throws. *)
Definition character_not_found : list value → Eff Env value :=
  fun _ => throw (mkError "character not found").

Definition no_history : list value → Eff Env value :=
  fun _ => mret VNull.

Definition failing_tools : NodeTool :=
  WorldBookNodeTools character_not_found no_history.

(** A configuration whose type name is registered nowhere, and the global
    state before any node was constructed. *)
Definition unregistered_config : NodeConfig :=
  {| cfg_id := "node-1"; cfg_name := "wb"; cfg_category := None; cfg_next := None;
     cfg_initParams := None; cfg_inputFields := None; cfg_outputFields := None;
     cfg_inputMapping := None |}.

Definition fresh_global : Global := mkGlobal ∅ empty_env.

(** A configuration under the type name [worldBook], and a global state in
    which [WorldBookNodeTools] is registered under that name. *)
Definition registered_config : NodeConfig :=
  {| cfg_id := "world-book-1"; cfg_name := "worldBook"; cfg_category := Some MIDDLE;
     cfg_next := Some ["llm-1"]; cfg_initParams := None;
     cfg_inputFields := Some ["systemMessage"; "userInput"];
     cfg_outputFields := Some ["systemMessage"];
     cfg_inputMapping := Some {[ "userInput" := "currentUserInput" ]} |}.

Definition registered_global : Global :=
  mkGlobal {[ "worldBook" := failing_tools ]} empty_env.

(** A middle node whose [_call] throws. *)
Definition call_throws : NodeClass :=
  {| m_getDefaultCategory := MIDDLE;
     m_beforeExecute := NodeBase.beforeExecute;
     m_call := fun _ _ => throw (mkError "model unavailable");
     m_afterExecute := NodeBase.afterExecute |}.

Definition call_throws_node : Node := mkNode call_throws middle_a.

(** A consumer of the field [a] under the name [b], and a node with two
    input fields sent to the same destination. *)
Definition consumer_a : NodeData :=
  make_node "plugin-1" "plugin" MIDDLE [] ["a"] [] {[ "a" := "b" ]}.

Definition colliding_node : NodeData :=
  make_node "llm-1" "llm" MIDDLE ["q"] ["p"; "q"] [] {[ "p" := "q" ]}.

Definition world_pq : World :=
  mkWorld (mkContext {[ "q" := VNum 0 ]} {[ "p" := VNum 1; "q" := VNum 2 ]} ∅) empty_env.



(** * Domain methods of the tool classes *)

(** Truthiness of a JavaScript value, and [a || b]. *)
Definition truthy (v : value) : bool :=
  match v with
  | VUndefined | VNull => false
  | VBool b => b
  | VNum z => negb (z =? 0)
  | VStr s => negb (bool_decide (s = ""))
  end.

Definition js_or (a b : value) : value := if truthy a then a else b.

(** Truthiness of a string field that may be [undefined]. *)
Definition truthy_string (s : option string) : bool :=
  match s with
  | Some s => negb (bool_decide (s = ""))
  | None => false
  end.

(** [array.slice(start)] for an integer [start]: a negative [start] counts
    from the end, and both ends are clamped. *)
Definition slice_from {A} (start : Z) (l : list A) : list A :=
  let len := Z.of_nat (length l) in
  let k := if start <? 0 then Z.max (len + start) 0 else Z.min start len in
  drop (Z.to_nat k) l.

(** ** [WorldBookNodeTools.getChatHistory] *)

(** The fields of a node of the dialogue tree that [getChatHistory] reads; a
    field that is [undefined] is [None]. *)
Record DialogueNode : Type := mkDialogueNode {
  parentNodeId : string;
  userInput : option string;
  assistantResponse : option string;
}.

Record DialogueTree : Type := mkDialogueTree {
  current_nodeId : string;
}.

Inductive Role : Type := user | assistant.

#[global] Instance Role_eq_dec : EqDecision Role.
Proof. solve_decision. Defined.

Module DialogueMessage.

Record t : Type := mk {
  role : Role;
  content : string;
  id : Z;
}.

End DialogueMessage.

(** One round of the loop over the path: the local [messages] and
    [messageId] after the round. *)
Definition history_step (acc : list DialogueMessage.t * Z) (node : DialogueNode)
    : list DialogueMessage.t * Z :=
  if bool_decide (parentNodeId node = "root") && truthy_string (assistantResponse node)
  then acc
  else
    let acc1 :=
      if truthy_string (userInput node)
      then ((acc.1 ++ [DialogueMessage.mk user (default "" (userInput node)) acc.2])%list,
            acc.2 + 1)
      else acc in
    if truthy_string (assistantResponse node)
    then ((acc1.1
           ++ [DialogueMessage.mk assistant (default "" (assistantResponse node)) acc1.2])%list,
          acc1.2 + 1)
    else acc1.

(** The messages that one round appends, for the value of [messageId] at its
    start. *)
Definition step_messages (messageId : Z) (node : DialogueNode) : list DialogueMessage.t :=
  if bool_decide (parentNodeId node = "root") && truthy_string (assistantResponse node)
  then []
  else
    let from_user :=
      if truthy_string (userInput node)
      then [DialogueMessage.mk user (default "" (userInput node)) messageId]
      else [] in
    let from_assistant :=
      if truthy_string (assistantResponse node)
      then [DialogueMessage.mk assistant (default "" (assistantResponse node))
              (messageId + Z.of_nat (length from_user))]
      else [] in
    (from_user ++ from_assistant)%list.

(** The array [messages] after the loop. *)
Definition collect_messages (nodePath : list DialogueNode) : list DialogueMessage.t :=
  (foldl history_step ([], 0) nodePath).1.

Section ChatHistory.

(** [LocalCharacterDialogueOperations], outside the node flow. *)
Variable getDialogueTreeById : string → Eff Env (option DialogueTree).
Variable getDialoguePathToNode : string → string → Eff Env (list DialogueNode).

(** [contextWindow] is [None] when the argument is left out; it then
    defaults to 5. *)
Definition getChatHistory (this : NodeTool) (characterId : string) (contextWindow : option Z)
    : Eff Env (list DialogueMessage.t) :=
  let contextWindow := default 5 contextWindow in
  try_catch
    (dialogueTree ← getDialogueTreeById characterId;
     match dialogueTree with
     | None => mret []
     | Some dialogueTree =>
         nodePath ←
           (if bool_decide (current_nodeId dialogueTree ≠ "root")
            then getDialoguePathToNode characterId (current_nodeId dialogueTree)
            else mret []);
         let messages := collect_messages nodePath in
         let recentMessages := slice_from (- contextWindow * 2) messages in
         mret recentMessages
     end)
    (fun err =>
       handleError (A := unit) this err "getChatHistory";;
       mret []).

End ChatHistory.

(** ** [PresetNodeTools.enrichPromptsWithCharacterInfo] *)

(** A prompt of a preset is an object; [identifier] and [content] are the
    properties read here. *)
Abbreviation Prompt := (gmap string value).

Module CharacterData.

(** The fields of [character.characterData] that the tool classes read. *)
Record t : Type := mk {
  name : value;
  description : value;
  personality : value;
  scenario : value;
}.

End CharacterData.

(** The part of a [Character] that [PresetNodeTools] reads. *)
Record Character : Type := mkCharacter {
  characterData : CharacterData.t;
}.

(** One round of the [map]: a copy of the prompt, with [content] filled from
    the character when the prompt has none. *)
Definition enrich_prompt (character : Character) (prompt : Prompt) : Prompt :=
  let enrichedPrompt := prompt in
  let fill (data : value) :=
    if negb (truthy (read enrichedPrompt "content")) && truthy data
    then <["content" := data]> enrichedPrompt
    else enrichedPrompt in
  if decide (read prompt "identifier" = VStr "charDescription")
  then fill (CharacterData.description (characterData character))
  else if decide (read prompt "identifier" = VStr "charPersonality")
  then fill (CharacterData.personality (characterData character))
  else if decide (read prompt "identifier" = VStr "scenario")
  then fill (CharacterData.scenario (characterData character))
  else enrichedPrompt.

Definition enrichPromptsWithCharacterInfo
    (prompts : list Prompt) (character : Character) : list Prompt :=
  map (enrich_prompt character) prompts.

(** A dialogue path: the opening node under the root, which carries the
    greeting of the character, then two exchanges, the last one still
    without a response. *)
Definition sample_path : list DialogueNode :=
  [ mkDialogueNode "root" (Some "hello") (Some "Welcome, traveller.");
    mkDialogueNode "n1" (Some "Who are you?") (Some "A friend.");
    mkDialogueNode "n2" (Some "Where are we?") None ].

Definition sample_tree_ops : string → Eff Env (option DialogueTree) :=
  fun _ => mret (Some (mkDialogueTree "n3")).

Definition sample_path_ops : string → string → Eff Env (list DialogueNode) :=
  fun _ _ => mret sample_path.

(** The data of the character that belongs to a prompt: the description, the
    personality or the scenario, by the identifier of the prompt. *)
Definition prompt_data (character : Character) (prompt : Prompt) : option value :=
  if decide (read prompt "identifier" = VStr "charDescription")
  then Some (CharacterData.description (characterData character))
  else if decide (read prompt "identifier" = VStr "charPersonality")
  then Some (CharacterData.personality (characterData character))
  else if decide (read prompt "identifier" = VStr "scenario")
  then Some (CharacterData.scenario (characterData character))
  else None.

(** A character with a description and no scenario, and the prompts of a
    preset: an empty description, a personality with custom content, an
    empty scenario. *)
Definition sample_character : Character :=
  mkCharacter
    (CharacterData.mk (VStr "Ayla") (VStr "A wandering bard.") (VStr "Cheerful.") (VStr "")).

Definition sample_prompts : list Prompt :=
  [ {[ "identifier" := VStr "charDescription"; "content" := VStr "" ]};
    {[ "identifier" := VStr "charPersonality"; "content" := VStr "Stoic and terse." ]};
    {[ "identifier" := VStr "scenario" ]} ].

(** ** [PresetNodeTools.buildPromptFramework] *)

Module Preset.

(** The fields of a preset that [buildPromptFramework] reads. *)
Record t : Type := mk {
  id : option string;
  enabled : value;
}.

End Preset.

(** A parameter with a default value: the default applies when the argument
    is [undefined]. *)
Definition default_param (d v : value) : value :=
  if decide (v = VUndefined) then d else v.

(** A value inside a template literal. *)
Definition to_string (v : value) : string :=
  match v with
  | VUndefined => "undefined"
  | VNull => "null"
  | VBool true => "true"
  | VBool false => "false"
  | VNum z => pretty z
  | VStr s => s
  end.

Record PromptFramework : Type := mkPromptFramework {
  systemMessage : value;
  userMessage : value;
  presetId : value;
}.

Section BuildPromptFramework.

(** The character store, the preset store and the preset assembler, outside
    the node flow. *)
Variable CharacterRecord : Type.
Variable getCharacterById : string → Eff Env CharacterRecord.
Variable new_Character : CharacterRecord → Eff Env Character.
Variable getAllPresets : Eff Env (list Preset.t).
Variable getOrderedPrompts : string → Eff Env (list Prompt).
Variable assemblePrompts :
  list Prompt → value → value → value * value * value → value → Eff Env (value * value).

(** The result is [None] when the method resolves with [undefined], which is
    what a [catch] block that ran to its end would give. *)
Definition buildPromptFramework (this : NodeTool) (characterId : string)
    (language username charName number fastModel systemPresetType : value)
    : Eff Env (option PromptFramework) :=
  let language := default_param (VStr "zh") language in
  let fastModel := default_param (VBool false) fastModel in
  let systemPresetType := default_param (VStr "mirror_realm") systemPresetType in
  try_catch
    (characterRecord ← getCharacterById characterId;
     character ← new_Character characterRecord;
     allPresets ← getAllPresets;
     let enabledPreset :=
       List.find (fun preset => bool_decide (Preset.enabled preset = VBool true))
                 allPresets in
     selected ←
       match enabledPreset with
       | Some preset =>
           if truthy_string (Preset.id preset)
           then
             orderedPrompts ← getOrderedPrompts (default "" (Preset.id preset));
             mret (orderedPrompts, VStr (default "" (Preset.id preset)))
           else
             console_log ("No enabled preset found, using " ++ to_string systemPresetType
                          ++ " system framework for character " ++ characterId);;
             mret ([], VUndefined)
       | None =>
           console_log ("No enabled preset found, using " ++ to_string systemPresetType
                        ++ " system framework for character " ++ characterId);;
           mret ([], VUndefined)
       end;
     let enrichedPrompts := enrichPromptsWithCharacterInfo selected.1 character in
     messages ←
       assemblePrompts enrichedPrompts language fastModel
         (username,
          js_or charName (CharacterData.name (characterData character)),
          number)
         systemPresetType;
     mret (Some {| systemMessage := messages.1;
                   userMessage := messages.2;
                   presetId := selected.2 |}))
    (fun err =>
       handleError (A := unit) this err "buildPromptFramework";;
       mret None).

End BuildPromptFramework.

(** ** The [_call] of the nodes that use a tool class *)

Section NodeCalls.

(** The result of a tool call is an object of the domain of the tool, which
    [value] does not describe; reading one of its properties is taken as
    given. *)
Variable property : value → string → Eff Env value.

(** [PresetNode._call] *)
Definition PresetNode_call (this : NodeData) (input : NodeInput) : Eff Env NodeOutput :=
  let characterId := read input "characterId" in
  let language := js_or (read input "language") (VStr "zh") in
  let username := read input "username" in
  let charName := read input "charName" in
  let number := read input "number" in
  let fastModel := read input "fastModel" in
  let systemPresetType := js_or (read input "systemPresetType") (VStr "mirror_realm") in
  if negb (truthy characterId)
  then throw (mkError "Character ID is required for PresetNode")
  else
    result ← NodeBase.executeTool this "buildPromptFramework"
               [characterId; language; username; charName; number; fastModel;
                systemPresetType];
    systemMessage ← property result "systemMessage";
    userMessage ← property result "userMessage";
    presetId ← property result "presetId";
    mret ({[ "systemMessage" := systemMessage;
             "userMessage" := userMessage;
             "presetId" := presetId ]} : NodeOutput).

Definition PresetNode_methods : NodeClass :=
  {| m_getDefaultCategory := PresetNode.getDefaultCategory;
     m_beforeExecute := NodeBase.beforeExecute;
     m_call := PresetNode_call;
     m_afterExecute := NodeBase.afterExecute |}.

(** [WorldBookNode._call] *)
Definition WorldBookNode_call (this : NodeData) (input : NodeInput) : Eff Env NodeOutput :=
  let systemMessage := read input "systemMessage" in
  let userMessage := read input "userMessage" in
  let characterId := read input "characterId" in
  let language := js_or (read input "language") (VStr "zh") in
  let username := read input "username" in
  let charName := read input "charName" in
  let currentUserInput := js_or (read input "currentUserInput") (VStr "") in
  let contextWindow := js_or (read input "contextWindow") (VNum 5) in
  if negb (truthy systemMessage)
  then throw (mkError "System message is required for WorldBookNode")
  else if negb (truthy characterId)
  then throw (mkError "Character ID is required for WorldBookNode")
  else
    result ← NodeBase.executeTool this "assemblePromptWithWorldBook"
               [characterId; systemMessage; userMessage; currentUserInput; language;
                contextWindow; username; charName];
    systemMessage' ← property result "systemMessage";
    userMessage' ← property result "userMessage";
    mret ({[ "systemMessage" := systemMessage';
             "userMessage" := userMessage';
             "characterId" := characterId;
             "language" := language;
             "username" := username;
             "charName" := charName;
             "contextWindow" := contextWindow;
             "currentUserInput" := currentUserInput ]} : NodeOutput).

Definition WorldBookNode_methods : NodeClass :=
  {| m_getDefaultCategory := WorldBookNode.getDefaultCategory;
     m_beforeExecute := NodeBase.beforeExecute;
     m_call := WorldBookNode_call;
     m_afterExecute := NodeBase.afterExecute |}.

(** [ContextNode._call]: two tool calls, the second one with the fixed
    window 3. *)
Definition ContextNode_call (this : NodeData) (input : NodeInput) : Eff Env NodeOutput :=
  let userMessage := read input "userMessage" in
  let characterId := read input "characterId" in
  let userInput := read input "userInput" in
  let memoryLength := js_or (read input "memoryLength") (VNum 10) in
  if negb (truthy userMessage)
  then throw (mkError "User message is required for ContextNode")
  else if negb (truthy characterId)
  then throw (mkError "Character ID is required for ContextNode")
  else
    result ← NodeBase.executeTool this "assembleChatHistory"
               [userMessage; characterId; memoryLength];
    conversationContext ← NodeBase.executeTool this "generateConversationContext"
                            [characterId; js_or userInput (VStr ""); VNum 3];
    userMessage' ← property result "userMessage";
    mret ({[ "userMessage" := userMessage';
             "conversationContext" := conversationContext ]} : NodeOutput).

Definition ContextNode_methods : NodeClass :=
  {| m_getDefaultCategory := MIDDLE;
     m_beforeExecute := NodeBase.beforeExecute;
     m_call := ContextNode_call;
     m_afterExecute := NodeBase.afterExecute |}.

End NodeCalls.

(** Collaborators of [buildPromptFramework] for the examples: a store with
    one character, an assembler that reports how many prompts it was given,
    and presets of which the first one is not enabled by the boolean [true],
    the second one is enabled and has no id, the third one is enabled and
    has one. *)
Definition sample_getCharacterById : string → Eff Env unit := fun _ => mret tt.

Definition sample_new_Character : unit → Eff Env Character := fun _ => mret sample_character.

Definition sample_assemblePrompts
    : list Prompt → value → value → value * value * value → value → Eff Env (value * value) :=
  fun prompts _ _ _ _ => mret (VNum (Z.of_nat (length prompts)), VStr "user").

Definition masked_presets : list Preset.t :=
  [ Preset.mk (Some "p0") (VStr "true");
    Preset.mk None (VBool true);
    Preset.mk (Some "p2") (VBool true) ].

Definition usable_presets : list Preset.t :=
  [ Preset.mk (Some "p0") (VNum 1);
    Preset.mk (Some "p1") (VBool true);
    Preset.mk (Some "p2") (VBool true) ].

Definition sample_getOrderedPrompts : string → Eff Env (list Prompt) :=
  fun presetId => if decide (presetId = "p1") then mret sample_prompts else mret [].

(** [execute] ends FAILED with the error [msg] before any tool was called:
    the context is unchanged and the environment holds only the diagnostics
    of the resolution and the log of [beforeExecute]. *)
Definition rejected (methods : NodeClass) (d : NodeData) (w : World) (msg : string) : Prop :=
  NodeBase.execute (mkNode methods d) w
  = (Returned (failed_result (mkNode methods d) w (resolved_input d (context w))
                 (mkError msg) (clock (env w))),
     mkWorld (context w)
       (emit_env
          (missing_warnings d (context w)
           ++ [mkEntry LOG ("Node " ++ id d ++ ": Processing workflow beforeExecute")])
          (env w))).

(** An input of [WorldBookNode] with its three defaults written out. *)
Definition WorldBookNode_defaults (input : NodeInput) : NodeInput :=
  <["language" := js_or (read input "language") (VStr "zh")]>
    (<["currentUserInput" := js_or (read input "currentUserInput") (VStr "")]>
       (<["contextWindow" := js_or (read input "contextWindow") (VNum 5)]> input)).

(** The arguments that [WorldBookNode] hands to its tool. *)
Definition WorldBookNode_arguments (input : NodeInput) : list value :=
  [ read input "characterId"; read input "systemMessage"; read input "userMessage";
    js_or (read input "currentUserInput") (VStr "");
    js_or (read input "language") (VStr "zh");
    js_or (read input "contextWindow") (VNum 5);
    read input "username"; read input "charName" ].

(** Property reads for the examples: every property reads as the value
    itself. *)
Definition sample_property : value → string → Eff Env value := fun v _ => mret v.

(** A world-book node bound to [WorldBookNodeTools] whose domain method
    throws, and a context whose cache holds what the node requires. *)
Definition world_book_node : NodeData :=
  mkNodeData "world-book-1" "worldBook" MIDDLE ["llm-1"] (Some failing_tools)
    (mkParams [] ["systemMessage"; "characterId"] ["systemMessage"; "userMessage"] ∅).

Definition world_ready : World :=
  mkWorld (mkContext ∅ {[ "systemMessage" := VStr "You are Ayla.";
                           "characterId" := VStr "c1" ]} ∅) empty_env.

(** * Properties *)

(** A closed decidable proposition, by evaluation. *)
Ltac by_decision := apply (bool_decide_unpack _); vm_compute; exact I.

(** ** Running computations *)

Lemma emit_env_nil e : emit_env [] e = e.
Proof. destruct e. unfold emit_env. simpl. by rewrite app_nil_r. Qed.

Lemma emit_nil w : emit [] w = w.
Proof. destruct w. unfold emit. simpl. by rewrite emit_env_nil. Qed.

Lemma emit_env_app a b e : emit_env b (emit_env a e) = emit_env (a ++ b) e.
Proof. unfold emit_env. simpl. by rewrite app_assoc. Qed.

Lemma emit_app a b w : emit b (emit a w) = emit (a ++ b) w.
Proof. unfold emit. simpl. by rewrite emit_env_app. Qed.

Lemma emit_context entries w : context (emit entries w) = context w.
Proof. done. Qed.

Lemma apply_writes_app ws1 ws2 acc :
  apply_writes (ws1 ++ ws2) acc = apply_writes ws2 (apply_writes ws1 acc).
Proof. unfold apply_writes. by rewrite foldl_app. Qed.

Lemma bind_run {S A B} (m : Eff S A) (k : A → Eff S B) s :
  (m ≫= k) s =
  match m s with
  | (Returned a, s') => k a s'
  | (Thrown e, s') => (Thrown e, s')
  end.
Proof. done. Qed.

Lemma mret_run {S A} (a : A) (s : S) :
  (mret a : Eff S A) s = (Returned a, s).
Proof. done. Qed.

Lemma for_of_nil {S A B} (acc : B) (body : A → B → Eff S B) s :
  for_of [] acc body s = (Returned acc, s).
Proof. done. Qed.

Lemma for_of_cons {S A B} x xs (acc : B) (body : A → B → Eff S B) s :
  for_of (x :: xs) acc body s =
  match body x acc s with
  | (Returned acc', s') => for_of xs acc' body s'
  | (Thrown e, s') => (Thrown e, s')
  end.
Proof. done. Qed.

(** One round of the first loop of [resolveInput]. *)
Lemma init_step_run this f (acc : NodeInput) w :
  (present ← on_context (hasInput f);
   if present : bool then
     v ← on_context (getInput f);
     mret (<[f := v]> acc)
   else
     on_env (console_warn
       ("Node " ++ id this ++ ": Required input '" ++ f ++ "' not found in Input"));;
     mret acc) w
  = match ctx_input (context w) !! f with
    | Some v => (Returned (<[f := v]> acc), w)
    | None => (Returned acc, emit [init_warning this f] w)
    end.
Proof.
  destruct w as [c e]. rewrite bind_run. cbn [on_context zoom hasInput gets context env].
  destruct (ctx_input c !! f) as [v|] eqn:Hf.
  - rewrite bool_decide_eq_true_2 by eauto.
    rewrite bind_run. cbn. unfold read. by rewrite Hf.
  - rewrite bool_decide_eq_false_2 by (intros [? ?]; done).
    by rewrite bind_run.
Qed.

(** The first loop of [resolveInput]. *)
Lemma init_loop_run this fields acc w :
  for_of fields acc (fun fieldName resolvedInput =>
    present ← on_context (hasInput fieldName);
    if present : bool then
      v ← on_context (getInput fieldName);
      mret (<[fieldName := v]> resolvedInput)
    else
      on_env (console_warn
        ("Node " ++ id this ++ ": Required input '" ++ fieldName ++ "' not found in Input"));;
      mret resolvedInput) w
  = (Returned
       (apply_writes
          (omap (fun f => (fun v => (f, v)) <$> ctx_input (context w) !! f) fields) acc),
     emit (omap (fun f => match ctx_input (context w) !! f with
                          | None => Some (init_warning this f)
                          | Some _ => None
                          end) fields) w).
Proof.
  revert acc w. induction fields as [|f fields IH]; intros acc w.
  - rewrite for_of_nil. by rewrite emit_nil.
  - rewrite for_of_cons, init_step_run.
    destruct (ctx_input (context w) !! f) as [v|] eqn:Hf.
    + rewrite IH. cbn [omap list_omap]. by rewrite Hf.
    + rewrite IH. cbn [omap list_omap]. rewrite Hf.
      rewrite emit_context, emit_app. done.
Qed.

(** One round of the second loop of [resolveInput]. *)
Lemma cache_step_run this f (acc : NodeInput) w :
  (let nodeFieldName := or_string (NodeBase.getInputMapping this !! f) f in
   present ← on_context (hasCache f);
   if present : bool then
     v ← on_context (getCache f);
     mret (<[nodeFieldName := v]> acc)
   else
     on_env (console_warn
       ("Node " ++ id this ++ ": Required input '" ++ f
        ++ "' (mapped to node field '" ++ nodeFieldName ++ "') not found in cache"));;
     mret acc) w
  = match ctx_cache (context w) !! f with
    | Some v => (Returned (<[destination this f := v]> acc), w)
    | None => (Returned acc, emit [cache_warning this f] w)
    end.
Proof.
  destruct w as [c e]. cbv zeta. rewrite bind_run.
  cbn [on_context zoom hasCache gets context env].
  destruct (ctx_cache c !! f) as [v|] eqn:Hf.
  - rewrite bool_decide_eq_true_2 by eauto.
    rewrite bind_run. cbn. unfold read. by rewrite Hf.
  - rewrite bool_decide_eq_false_2 by (intros [? ?]; done).
    by rewrite bind_run.
Qed.

(** The second loop of [resolveInput]. *)
Lemma cache_loop_run this fields acc w :
  for_of fields acc (fun workflowFieldName resolvedInput =>
    let nodeFieldName :=
      or_string (NodeBase.getInputMapping this !! workflowFieldName) workflowFieldName in
    present ← on_context (hasCache workflowFieldName);
    if present : bool then
      v ← on_context (getCache workflowFieldName);
      mret (<[nodeFieldName := v]> resolvedInput)
    else
      on_env (console_warn
        ("Node " ++ id this ++ ": Required input '" ++ workflowFieldName
         ++ "' (mapped to node field '" ++ nodeFieldName ++ "') not found in cache"));;
      mret resolvedInput) w
  = (Returned
       (apply_writes
          (omap (fun f => (fun v => (destination this f, v)) <$> ctx_cache (context w) !! f)
                fields) acc),
     emit (omap (fun f => match ctx_cache (context w) !! f with
                          | None => Some (cache_warning this f)
                          | Some _ => None
                          end) fields) w).
Proof.
  revert acc w. induction fields as [|f fields IH]; intros acc w.
  - rewrite for_of_nil. by rewrite emit_nil.
  - rewrite for_of_cons, cache_step_run.
    destruct (ctx_cache (context w) !! f) as [v|] eqn:Hf.
    + rewrite IH. cbn [omap list_omap]. by rewrite Hf.
    + rewrite IH. cbn [omap list_omap]. rewrite Hf.
      rewrite emit_context, emit_app. done.
Qed.

(** [resolveInput] always returns; it leaves the context as it is and only
    appends its diagnostics to the console. *)
Lemma resolveInput_run this w :
  NodeBase.resolveInput this w
  = (Returned (resolved_input this (context w)),
     emit (missing_warnings this (context w)) w).
Proof.
  unfold NodeBase.resolveInput. cbv zeta.
  rewrite bind_run, init_loop_run, cache_loop_run.
  rewrite emit_context, emit_app.
  unfold resolved_input, missing_warnings, init_writes, cache_writes.
  by rewrite apply_writes_app.
Qed.

(** ** Lookups after a sequence of writes *)

Lemma last_write_app k ws1 ws2 :
  last_write k (ws1 ++ ws2) =
  match last_write k ws2 with
  | Some v => Some v
  | None => last_write k ws1
  end.
Proof.
  induction ws1 as [|[k' v] ws1 IH]; simpl.
  - by destruct (last_write k ws2).
  - rewrite IH. by destruct (last_write k ws2).
Qed.

Lemma apply_writes_lookup ws acc k :
  apply_writes ws acc !! k =
  match last_write k ws with
  | Some v => Some v
  | None => acc !! k
  end.
Proof.
  revert acc. induction ws as [|[k' v] ws IH]; intros acc; simpl.
  - done.
  - unfold apply_writes in *. simpl. rewrite IH.
    destruct (last_write k ws); [done|].
    destruct (decide (k' = k)) as [->|Hne].
    + by rewrite lookup_insert_eq.
    + by rewrite lookup_insert_ne.
Qed.

Lemma last_write_Some k v ws :
  last_write k ws = Some v → (k, v) ∈ ws.
Proof.
  induction ws as [|[k' v'] ws IH]; simpl; [done|].
  destruct (last_write k ws) as [v''|].
  - intros [= ->]. right. by apply IH.
  - destruct (decide (k' = k)) as [->|]; [|done].
    intros [= ->]. left.
Qed.

Lemma last_write_None k ws :
  last_write k ws = None ↔ ∀ v, (k, v) ∉ ws.
Proof.
  induction ws as [|[k' v'] ws IH]; simpl.
  - split; [intros _ v Hin; inversion Hin|done].
  - destruct (last_write k ws) as [v''|] eqn:Hl.
    + split; [done|]. intros Hno. exfalso.
      apply last_write_Some in Hl. apply (Hno v''). by right.
    + destruct (decide (k' = k)) as [->|Hne].
      * split; [done|]. intros Hno. exfalso. apply (Hno v'). left.
      * split; [|done]. intros _ v Hin.
        apply elem_of_cons in Hin as [[= ? ?]|Hin]; [congruence|].
        by apply (proj1 IH eq_refl v).
Qed.

Lemma last_write_is_Some k v ws :
  (k, v) ∈ ws → is_Some (last_write k ws).
Proof.
  intros Hin. destruct (last_write k ws) eqn:Hl; [eauto|].
  exfalso. by apply (proj1 (last_write_None k ws) Hl v).
Qed.

(** When every write under [k] carries the same value, that value is the
    last one. *)
Lemma last_write_unique k v ws :
  (k, v) ∈ ws → (∀ v', (k, v') ∈ ws → v' = v) → last_write k ws = Some v.
Proof.
  intros Hin Huniq. destruct (last_write_is_Some k v ws Hin) as [v' Hv'].
  rewrite Hv'. f_equal. apply Huniq. by apply last_write_Some.
Qed.

(** ** What [resolveInput] writes *)

Lemma elem_of_init_writes this c k v :
  (k, v) ∈ init_writes this c ↔ k ∈ NodeBase.getInitParams this ∧ ctx_input c !! k = Some v.
Proof.
  unfold init_writes. rewrite list_elem_of_omap. split.
  - intros (f & Hf & Heq). destruct (ctx_input c !! f) as [v'|] eqn:Hv; simplify_eq/=. done.
  - intros [Hk Hv]. exists k. split; [done|]. by rewrite Hv.
Qed.

Lemma elem_of_cache_writes this c k v :
  (k, v) ∈ cache_writes this c ↔
  ∃ f, f ∈ NodeBase.getInputFields this ∧ destination this f = k ∧ ctx_cache c !! f = Some v.
Proof.
  unfold cache_writes. rewrite list_elem_of_omap. split.
  - intros (f & Hf & Heq). destruct (ctx_cache c !! f) as [v'|] eqn:Hv; simplify_eq/=. eauto.
  - intros (f & Hf & <- & Hv). exists f. split; [done|]. by rewrite Hv.
Qed.

Lemma last_write_init this c k :
  last_write k (init_writes this c) =
  if decide (k ∈ NodeBase.getInitParams this) then ctx_input c !! k else None.
Proof.
  case_decide as Hk.
  - destruct (ctx_input c !! k) as [v|] eqn:Hv.
    + apply last_write_unique.
      * by apply elem_of_init_writes.
      * intros v' [_ Hv']%elem_of_init_writes. congruence.
    + apply last_write_None. intros v [_ Hv']%elem_of_init_writes. congruence.
  - apply last_write_None. intros v [Hk' _]%elem_of_init_writes. done.
Qed.

(** The resolved input, key by key: the last input field written under the
    key wins, else the init parameter of that name. *)
Lemma resolved_input_lookup this c k :
  resolved_input this c !! k =
  match last_write k (cache_writes this c) with
  | Some v => Some v
  | None => if decide (k ∈ NodeBase.getInitParams this) then ctx_input c !! k else None
  end.
Proof.
  unfold resolved_input. rewrite apply_writes_lookup, last_write_app, last_write_init.
  destruct (last_write k (cache_writes this c)); [done|].
  case_decide; [|done]. by destruct (ctx_input c !! k).
Qed.


Lemma unwritten_last_write this c k :
  unwritten_by_cache this c k → last_write k (cache_writes this c) = None.
Proof.
  intros Hun. apply last_write_None. intros v (g & Hg & Hd & Hv)%elem_of_cache_writes.
  by apply (Hun g Hg); [eauto|].
Qed.

Lemma resolved_input_cache_present this c f v :
  f ∈ NodeBase.getInputFields this → ctx_cache c !! f = Some v →
  is_Some (resolved_input this c !! destination this f).
Proof.
  intros Hf Hv. rewrite resolved_input_lookup.
  destruct (last_write_is_Some (destination this f) v (cache_writes this c)) as [v' ->];
    [|eauto].
  apply elem_of_cache_writes. eauto.
Qed.

Lemma resolved_input_cache_value this c f v :
  f ∈ NodeBase.getInputFields this → ctx_cache c !! f = Some v →
  (∀ g v', g ∈ NodeBase.getInputFields this → ctx_cache c !! g = Some v' →
           destination this g = destination this f → v' = v) →
  resolved_input this c !! destination this f = Some v.
Proof.
  intros Hf Hv Huniq. rewrite resolved_input_lookup.
  rewrite (last_write_unique (destination this f) v); [done| |].
  - apply elem_of_cache_writes. eauto.
  - intros v' (g & Hg & Hd & Hv')%elem_of_cache_writes. eauto.
Qed.

Lemma resolved_input_no_input_fields this c :
  NodeBase.getInputFields this = [] →
  resolved_input this c = filter (fun kv => kv.1 ∈ NodeBase.getInitParams this) (ctx_input c).
Proof.
  intros Hnil. apply map_eq. intros k. rewrite resolved_input_lookup.
  unfold cache_writes. rewrite Hnil. simpl.
  case_decide as Hk.
  - destruct (ctx_input c !! k) as [v|] eqn:Hv.
    + symmetry. by apply map_lookup_filter_Some.
    + symmetry. apply map_lookup_filter_None. left. done.
  - symmetry. apply map_lookup_filter_None. right. intros v _. done.
Qed.




(** ** Input resolution *)





(** At a mapping entry that is the empty string, [resolveInput] keeps the
    field's own name. *)
Example blank_mapping_run :
  NodeBase.resolveInput blank_mapping_node world_hi
  = (Returned {[ "userInput" := VStr "hi" ]}, world_hi).
Proof. rewrite resolveInput_run. reflexivity. Qed.

(** C3 as stated does not hold: with [inputMapping = {userInput: ""}] and
    [userInput = "hi"] in the cache, the resolved input has no key
    [inputMapping["userInput"]]; the value is stored under [userInput]. *)
Lemma resolveInput_destination_as_stated_fails :
  ¬ (∀ (this : NodeData) (w : World) (f : string) (v : value),
       f ∈ NodeBase.getInputFields this →
       ctx_cache (context w) !! f = Some v →
       ∃ r w', NodeBase.resolveInput this w = (Returned r, w')
               ∧ is_Some (r !! destination_as_stated this f)).
Proof.
  intros Hclaim.
  destruct (Hclaim blank_mapping_node world_hi "userInput" (VStr "hi"))
    as (r & w' & Hrun & [x Hx]).
  - apply list_elem_of_singleton. reflexivity.
  - reflexivity.
  - rewrite blank_mapping_run in Hrun. injection Hrun as <- _.
    vm_compute in Hx. discriminate.
Qed.

(** C3, amended: for every input field [f] that the cache holds, when the
    input fields of the node and the destination key of [f] are not names of
    members of [Object.prototype], [resolveInput] writes the cached value of
    [f] under the destination key, which is [inputMapping[f]] when that is a
    non-empty string and [f] itself otherwise.  The resolved input has the
    destination key; it holds the value of [f] when no other cached input
    field with another value shares the destination; and when the
    destination differs from [f], the key [f] is absent unless another
    declared field supplies it. *)
Theorem resolveInput_destination_key (this : NodeData) (w : World) (f : string) (v : value) :
  Forall ordinary (NodeBase.getInputFields this) →
  ordinary (destination this f) →
  f ∈ NodeBase.getInputFields this →
  ctx_cache (context w) !! f = Some v →
  ∃ r w',
    NodeBase.resolveInput this w = (Returned r, w')
    ∧ destination this f
      = match NodeBase.getInputMapping this !! f with
        | Some m => if decide (m = "") then f else m
        | None => f
        end
    ∧ is_Some (r !! destination this f)
    ∧ ((∀ g v', g ∈ NodeBase.getInputFields this → ctx_cache (context w) !! g = Some v' →
                destination this g = destination this f → v' = v) →
       r !! destination this f = Some v)
    ∧ (destination this f ≠ f →
       unwritten_by_cache this (context w) f →
       (f ∈ NodeBase.getInitParams this → ctx_input (context w) !! f = None) →
       r !! f = None).
Proof.
  intros _ _ Hf Hv. eexists _, _. split; [apply resolveInput_run|].
  split; [done|].
  split; [by eapply resolved_input_cache_present|].
  split; [by apply resolved_input_cache_value|].
  intros _ Hun Hinit. rewrite resolved_input_lookup, unwritten_last_write by done.
  case_decide; [by apply Hinit|done].
Qed.

(** The scenario of C3: [inputFields = ["userInput"]], [inputMapping =
    {userInput: "currentUserInput"}] and [userInput = "hi"] in the cache. *)
Lemma resolveInput_destination_key_witness :
  ∃ r w',
    NodeBase.resolveInput mapped_node world_hi = (Returned r, w')
    ∧ r !! "currentUserInput" = Some (VStr "hi")
    ∧ r !! "userInput" = None.
Proof.
  destruct (resolveInput_destination_key mapped_node world_hi "userInput" (VStr "hi"))
    as (r & w' & Hrun & Hdest & _ & Hvalue & Habsent).
  - by_decision.
  - by_decision.
  - apply list_elem_of_singleton. reflexivity.
  - reflexivity.
  - exists r, w'. split; [exact Hrun|]. split.
    + apply Hvalue. intros g v' Hg Hv' _.
      apply list_elem_of_singleton in Hg. subst g.
      vm_compute in Hv'. congruence.
    + apply Habsent.
      * vm_compute. discriminate.
      * intros g Hg _. apply list_elem_of_singleton in Hg. subst g.
        vm_compute. discriminate.
      * intros Hin. inversion Hin.
Defined.

(** C8: [resolveInput] is deterministic and idempotent.  Run twice in a row,
    it returns the same resolved input both times and the context is the
    one it started from; any world with the same context state resolves to
    the same input, whatever its console, clock or node state. *)
Theorem resolveInput_idempotent (this : NodeData) (w : World) :
  ∃ r w1 w2,
    NodeBase.resolveInput this w = (Returned r, w1)
    ∧ NodeBase.resolveInput this w1 = (Returned r, w2)
    ∧ context w1 = context w
    ∧ context w2 = context w
    ∧ ∀ w', context w' = context w → (NodeBase.resolveInput this w').1 = Returned r.
Proof.
  eexists _, _, _. split; [apply resolveInput_run|].
  split; [rewrite resolveInput_run, emit_context; reflexivity|].
  split; [done|]. split; [done|].
  intros w' Hctx. rewrite resolveInput_run. simpl. by rewrite Hctx.
Qed.

(** ** Output publication *)

Lemma store_into_nil this c : store_into this [] c = c.
Proof. unfold store_into. destruct c. by destruct (category this). Qed.

Lemma store_into_cons this k v ws c :
  store_into this ((k, v) :: ws) c = store_into this ws (store_into this [(k, v)] c).
Proof. unfold store_into. by destruct (category this). Qed.

(** One call of the local function [storeData]. *)
Lemma storeData_run this k v w :
  match category this with
  | EXIT => on_context (setOutput k v)
  | _ => on_context (setCache k v)
  end w
  = (Returned tt, mkWorld (store_into this [(k, v)] (context w)) (env w)).
Proof. unfold store_into. by destruct (category this). Qed.

Lemma publish_writes_cons f fields output :
  publish_writes (f :: fields) output
  = if is_defined (read output f)
    then (f, read output f) :: publish_writes fields output
    else publish_writes fields output.
Proof. unfold publish_writes. simpl. by destruct (is_defined (read output f)). Qed.

Lemma publish_loop_run this output fields w :
  for_of fields tt (fun fieldName _ =>
    if is_defined (read output fieldName)
    then
      match category this with
      | EXIT => on_context (setOutput fieldName (read output fieldName))
      | _ => on_context (setCache fieldName (read output fieldName))
      end
    else mret tt) w
  = (Returned tt,
     mkWorld (store_into this (publish_writes fields output) (context w)) (env w)).
Proof.
  revert w. induction fields as [|f fields IH]; intros w.
  - rewrite for_of_nil. unfold publish_writes. simpl. rewrite store_into_nil. by destruct w.
  - rewrite for_of_cons, publish_writes_cons.
    destruct (is_defined (read output f)).
    + rewrite storeData_run, IH. cbn [context env].
      by rewrite (store_into_cons this f (read output f) (publish_writes fields output)).
    + by rewrite mret_run, IH.
Qed.

Lemma publishOutput_run this output w :
  NodeBase.publishOutput this output w
  = (Returned tt,
     mkWorld (store_into this (publish_writes (NodeBase.getOutputFields this) output)
                (context w)) (env w)).
Proof. unfold NodeBase.publishOutput. cbv zeta. apply publish_loop_run. Qed.

Lemma is_defined_true v : is_defined v = true ↔ v ≠ VUndefined.
Proof. unfold is_defined. apply bool_decide_eq_true. Qed.

Lemma elem_of_publish_writes fields output k v :
  (k, v) ∈ publish_writes fields output ↔
  k ∈ fields ∧ output !! k = Some v ∧ v ≠ VUndefined.
Proof.
  unfold publish_writes. rewrite list_elem_of_omap. split.
  - intros (f & Hf & Heq).
    destruct (is_defined (read output f)) eqn:Hd; simplify_eq/=.
    apply is_defined_true in Hd. unfold read in *.
    destruct (output !! k); simpl in *; done.
  - intros (Hk & Hv & Hd). exists k. split; [done|].
    unfold read. rewrite Hv. simpl.
    by rewrite (proj2 (is_defined_true v) Hd).
Qed.

Lemma last_write_publish fields output k :
  last_write k (publish_writes fields output)
  = filter (fun kv => kv.1 ∈ fields ∧ kv.2 ≠ VUndefined) output !! k.
Proof.
  destruct (filter _ output !! k) as [v|] eqn:Hfl.
  - apply map_lookup_filter_Some in Hfl as (Hv & Hk & Hd). simpl in *.
    apply last_write_unique.
    + by apply elem_of_publish_writes.
    + intros v' (_ & Hv' & _)%elem_of_publish_writes. congruence.
  - apply last_write_None. intros v (Hk & Hv & Hd)%elem_of_publish_writes.
    apply map_lookup_filter_None in Hfl as [Hno|Hno]; [congruence|].
    by apply (Hno v Hv).
Qed.

Lemma apply_publish_writes this output store :
  apply_writes (publish_writes (NodeBase.getOutputFields this) output) store
  = publishable this output ∪ store.
Proof.
  apply map_eq. intros k.
  rewrite apply_writes_lookup, last_write_publish, lookup_union.
  unfold publishable.
  destruct (filter _ output !! k); by destruct (store !! k).
Qed.

Lemma store_into_published this output c :
  store_into this (publish_writes (NodeBase.getOutputFields this) output) c
  = published this output c.
Proof.
  unfold store_into, published.
  destruct (category this); by rewrite apply_publish_writes.
Qed.

Lemma publishable_lookup this output k :
  publishable this output !! k
  = match output !! k with
    | Some v =>
        if decide (k ∈ NodeBase.getOutputFields this ∧ v ≠ VUndefined) then Some v else None
    | None => None
    end.
Proof.
  unfold publishable. destruct (output !! k) as [v|] eqn:Hv.
  - case_decide as Hd.
    + by apply map_lookup_filter_Some.
    + apply map_lookup_filter_None. right. intros v' Hv'. simpl. congruence.
  - apply map_lookup_filter_None. by left.
Qed.

Lemma target_store_published this output c :
  target_store this (published this output c) = publishable this output ∪ target_store this c.
Proof. unfold target_store, published. by destruct (category this). Qed.

Lemma other_store_published this output c :
  other_store this (published this output c) = other_store this c.
Proof. unfold other_store, published. by destruct (category this). Qed.

Lemma ctx_input_published this output c :
  ctx_input (published this output c) = ctx_input c.
Proof. unfold published. by destruct (category this). Qed.

(** C1, for output fields with ordinary names: when no declared output
    field is the name of a member of [Object.prototype], [publishOutput]
    writes exactly the fields that are declared in [outputFields] and not
    [undefined] in the output, to the output store when the category is EXIT
    and to the cache otherwise.  The other store and the input store are
    untouched, and a field that is undeclared or [undefined] leaves both
    stores as they were at its key.  Nothing is said here of a declared
    field named as a member of [Object.prototype]: there the test
    [output[fieldName] !== undefined] of the code finds the inherited
    member. *)
Theorem publishOutput_writes_declared_fields
    (this : NodeData) (output : NodeOutput) (w : World) :
  ordinary_outputs this →
  NodeBase.publishOutput this output w
  = (Returned tt,
     mkWorld (store_into this (publish_writes (NodeBase.getOutputFields this) output)
                (context w)) (env w))
  ∧ (∀ k v, (k, v) ∈ publish_writes (NodeBase.getOutputFields this) output ↔
            k ∈ NodeBase.getOutputFields this ∧ output !! k = Some v ∧ v ≠ VUndefined)
  ∧ store_into this (publish_writes (NodeBase.getOutputFields this) output) (context w)
    = published this output (context w)
  ∧ (category this = EXIT →
       ctx_output (published this output (context w))
       = publishable this output ∪ ctx_output (context w)
       ∧ ctx_cache (published this output (context w)) = ctx_cache (context w))
  ∧ (category this ≠ EXIT →
       ctx_cache (published this output (context w))
       = publishable this output ∪ ctx_cache (context w)
       ∧ ctx_output (published this output (context w)) = ctx_output (context w))
  ∧ ctx_input (published this output (context w)) = ctx_input (context w)
  ∧ (∀ k v, k ∈ NodeBase.getOutputFields this → output !! k = Some v → v ≠ VUndefined →
       target_store this (published this output (context w)) !! k = Some v)
  ∧ (∀ k, k ∉ NodeBase.getOutputFields this ∨ read output k = VUndefined →
       ctx_cache (published this output (context w)) !! k = ctx_cache (context w) !! k
       ∧ ctx_output (published this output (context w)) !! k
         = ctx_output (context w) !! k).
Proof.
  intros _.
  split; [apply publishOutput_run|].
  split; [intros k v; apply elem_of_publish_writes|].
  split; [apply store_into_published|].
  split; [intros Hc; unfold published; by rewrite Hc|].
  split; [intros Hc; unfold published; by destruct (category this)|].
  split; [apply ctx_input_published|].
  split.
  { intros k v Hk Hv Hd.
    rewrite target_store_published, lookup_union, publishable_lookup, Hv.
    rewrite decide_True by done. by destruct (target_store this (context w) !! k). }
  intros k Hk.
  assert (publishable this output !! k = None) as Hnone.
  { rewrite publishable_lookup. unfold read in Hk.
    destruct (output !! k) as [v|]; [|done].
    case_decide as Hd; [|done]. destruct Hd as [Hin Hv]. simpl in Hk.
    by destruct Hk. }
  unfold published. destruct (category this); simpl;
    rewrite ?lookup_union, ?Hnone; split; try done;
    by match goal with |- context [?m !! k] => destruct (m !! k) end.
Qed.

(** The routing scenario of C1: with [outputFields = ["a"]] and the output
    [{a: 1, b: 2}], an exit node leaves [a = 1] in the output store and a
    middle node leaves it in the cache; [b] is stored nowhere. *)
Lemma publishOutput_writes_declared_fields_witness :
  NodeBase.publishOutput exit_a output_ab empty_world
  = (Returned tt, mkWorld (mkContext ∅ ∅ {[ "a" := VNum 1 ]}) empty_env)
  ∧ NodeBase.publishOutput middle_a output_ab empty_world
    = (Returned tt, mkWorld (mkContext ∅ {[ "a" := VNum 1 ]} ∅) empty_env).
Proof.
  assert (ordinary_outputs exit_a) as Hexit by by_decision.
  assert (ordinary_outputs middle_a) as Hmiddle by by_decision.
  split.
  - rewrite (proj1 (publishOutput_writes_declared_fields exit_a output_ab empty_world Hexit)).
    reflexivity.
  - rewrite (proj1 (publishOutput_writes_declared_fields middle_a output_ab empty_world
                      Hmiddle)).
    reflexivity.
Defined.

(** ** The default [_call] *)

Lemma call_loop_run (input : NodeInput) fields (acc : NodeOutput) (e : Env) :
  for_of fields acc (fun field output =>
    if is_defined (read input field)
    then mret (<[field := read input field]> output)
    else mret output) e
  = (Returned (apply_writes (publish_writes fields input) acc), e).
Proof.
  revert acc. induction fields as [|f fields IH]; intros acc.
  - by rewrite for_of_nil.
  - rewrite for_of_cons, publish_writes_cons.
    destruct (is_defined (read input f)); by rewrite mret_run, IH.
Qed.

Lemma default_call_run this input e :
  NodeBase._call this input e
  = (Returned (if decide (NodeBase.getOutputFields this = [])
               then input else publishable this input), e).
Proof.
  unfold NodeBase._call. cbv zeta.
  destruct (NodeBase.getOutputFields this) as [|f fields] eqn:Hfields.
  - by rewrite decide_True.
  - rewrite bool_decide_eq_false_2 by done. rewrite decide_False by done.
    rewrite call_loop_run. rewrite <- Hfields.
    rewrite apply_publish_writes. by rewrite (right_id_L ∅ (∪)).
Qed.

(** C5, for output fields with ordinary names: when no declared output
    field is the name of a member of [Object.prototype], the default [_call]
    never throws and has no side effect.  Without declared output fields it
    returns the whole resolved input; otherwise it returns the input
    restricted to the declared fields whose value is not [undefined]: a
    declared field is in the result exactly when its value in the input is
    not [undefined], with that value, and no other key is.  Nothing is said
    here of a declared field named as a member of [Object.prototype]: there
    the test [input[field] !== undefined] of the code finds the inherited
    member. *)
Theorem default_call_projects_input (this : NodeData) (input : NodeInput) (e : Env) :
  ordinary_outputs this →
  ∃ out,
    NodeBase._call this input e = (Returned out, e)
    ∧ (NodeBase.getOutputFields this = [] → out = input)
    ∧ (NodeBase.getOutputFields this ≠ [] →
         out = filter (fun kv => kv.1 ∈ NodeBase.getOutputFields this ∧ kv.2 ≠ VUndefined)
                      input
         ∧ (∀ k, k ∈ NodeBase.getOutputFields this →
                 (is_Some (out !! k) ↔ read input k ≠ VUndefined)
                 ∧ (is_Some (out !! k) → out !! k = input !! k))
         ∧ (∀ k, k ∉ NodeBase.getOutputFields this → out !! k = None)).
Proof.
  intros _.
  eexists. split; [apply default_call_run|].
  split; [intros Hnil; by rewrite decide_True|].
  intros Hne. rewrite decide_False by done.
  split; [done|]. split.
  - intros k Hk. rewrite publishable_lookup. unfold read.
    destruct (input !! k) as [v|]; simpl.
    + case_decide as Hd.
      * split; [|done]. split; [by intros _; destruct Hd|eauto].
      * split; [|by intros [? ?]]. split; [by intros [? ?]|].
        intros Hv. destruct Hd. done.
    + split; [|by intros [? ?]]. split; [by intros [? ?]|done].
  - intros k Hk. rewrite publishable_lookup.
    destruct (input !! k); [|done]. case_decide as Hd; [by destruct Hd|done].
Qed.

(** The default [_call] of a node declaring [outputFields = ["a"]] on the
    input [{a: 1, b: 2}], and of an entry node without output fields. *)
Lemma default_call_projects_input_witness :
  NodeBase._call middle_a output_ab empty_env = (Returned {[ "a" := VNum 1 ]}, empty_env)
  ∧ NodeBase._call entry_xy output_ab empty_env = (Returned output_ab, empty_env).
Proof.
  split.
  - destruct (default_call_projects_input middle_a output_ab empty_env)
      as (out & Hrun & _ & Hsome); [by_decision|].
    destruct Hsome as (Hout & _ & _); [discriminate|].
    rewrite Hrun, Hout. reflexivity.
  - destruct (default_call_projects_input entry_xy output_ab empty_env)
      as (out & Hrun & Hnone & _); [by_decision|].
    rewrite Hrun, (Hnone eq_refl). reflexivity.
Defined.

(** ** The [execute] wrapper *)

Lemma on_env_run {A} (m : Eff Env A) w :
  on_env m w = ((m (env w)).1, mkWorld (context w) (m (env w)).2).
Proof. unfold on_env, zoom. by destruct (m (env w)). Qed.

Lemma in_world_run {A} (m : Eff World A) fr :
  in_world m fr = ((m (world fr)).1, mkFrame (m (world fr)).2 (result fr)).
Proof. unfold in_world, zoom. by destruct (m (world fr)). Qed.

(** The [try]/[catch]/[finally] of [execute] around any [try] block: the
    wrapper returns whatever the block does, and an exception of the block
    ends in a FAILED result holding the error, in the world the block left. *)
Lemma execute_wrapper_captures (block : Eff Frame unit) (fr : Frame) :
  ∃ fr',
    try_finally
      (try_catch block
         (fun err => set_result (with_status FAILED);; set_result (with_error err)))
      (t ← in_world (on_env new_Date); set_result (with_endTime t)) fr
    = (Returned tt, fr')
    ∧ ∀ err fr1, block fr = (Thrown err, fr1) →
        status (result fr') = FAILED ∧ error (result fr') = Some err
        ∧ world fr' = world fr1.
Proof.
  unfold try_finally, try_catch.
  destruct (block fr) as [[[]|err] fr1] eqn:Hblock.
  - rewrite bind_run, in_world_run, on_env_run. cbn.
    eexists. split; [reflexivity|]. intros err fr2 [=].
  - rewrite bind_run. cbn [set_result modify].
    rewrite bind_run, in_world_run, on_env_run. cbn.
    eexists. split; [reflexivity|]. intros err' fr2 [= <- <-].
    destruct fr1 as [[c e] r]. done.
Qed.

Lemma execute_run (n : Node) (w : World) :
  ∃ r w', NodeBase.execute n w = (Returned r, w') ∧ Runs n w r w'.
Proof.
  unfold NodeBase.execute. rewrite bind_run, on_env_run. cbn [new_Date gets fst snd].
  unfold with_frame, NodeBase.execute_body, try_finally, try_catch.
  rewrite bind_run, in_world_run. cbn [world result].
  rewrite resolveInput_run. cbn [fst snd].
  rewrite bind_run, in_world_run, on_env_run.
  cbn [world result context env fst snd emit].
  change (emit_env (missing_warnings (this n) (context w)) (env w))
    with (env_resolved n w).
  destruct (m_beforeExecute _ _ _ (env_resolved n w)) as [[[]|err] e1] eqn:Hbefore;
    cbn [fst snd].
  2:{ eexists _, _. split; [reflexivity|]. by apply Runs_beforeExecute_throws. }
  rewrite bind_run. cbn [set_result modify world result].
  rewrite bind_run, in_world_run, on_env_run. cbn [world result context env fst snd].
  destruct (m_call _ _ _ e1) as [[out|err] e2] eqn:Hcall; cbn [fst snd].
  2:{ eexists _, _. split; [reflexivity|]. by eapply Runs_call_throws. }
  rewrite bind_run, in_world_run, publishOutput_run, store_into_published.
  cbn [world result context env fst snd].
  rewrite bind_run, in_world_run, on_env_run. cbn [world result context env fst snd].
  destruct (m_afterExecute _ _ out e2) as [[[]|err] e3] eqn:Hafter; cbn [fst snd].
  2:{ eexists _, _. split; [reflexivity|]. by eapply Runs_afterExecute_throws. }
  eexists _, _. split; [reflexivity|]. by eapply Runs_completed.
Qed.

(** Two runs of the same step from the same state have the same outcome. *)
Ltac same_step :=
  repeat match goal with
         | H : ?x = _, H' : ?x = _ |- _ => rewrite H in H'; simplify_eq
         end.

Lemma Runs_det n w r1 w1 r2 w2 :
  Runs n w r1 w1 → Runs n w r2 w2 → r1 = r2 ∧ w1 = w2.
Proof.
  intros H1 H2. destruct H1; destruct H2; same_step; done.
Qed.

(** C4: [execute] runs resolveInput, [beforeExecute], [_call],
    publishOutput and [afterExecute] in this order, each step in the
    environment left by the one before.  It never throws: it always returns
    a result, which is FAILED with the error attached when a step threw and
    COMPLETED with the output of [_call] attached otherwise. *)
Theorem execute_captures_exceptions (n : Node) (w : World) :
  ∃ r w',
    NodeBase.execute n w = (Returned r, w')
    ∧ Runs n w r w'
    ∧ (status r = COMPLETED ∨ status r = FAILED)
    ∧ (status r = FAILED → is_Some (error r) ∧ output r = None)
    ∧ (∀ err e1,
         m_beforeExecute (class n) (this n) (resolved_input (this n) (context w))
           (env_resolved n w) = (Thrown err, e1) →
         status r = FAILED ∧ error r = Some err)
    ∧ (∀ e1 err e2,
         m_beforeExecute (class n) (this n) (resolved_input (this n) (context w))
           (env_resolved n w) = (Returned tt, e1) →
         m_call (class n) (this n) (resolved_input (this n) (context w)) e1
           = (Thrown err, e2) →
         status r = FAILED ∧ error r = Some err)
    ∧ (∀ e1 out e2 err e3,
         m_beforeExecute (class n) (this n) (resolved_input (this n) (context w))
           (env_resolved n w) = (Returned tt, e1) →
         m_call (class n) (this n) (resolved_input (this n) (context w)) e1
           = (Returned out, e2) →
         m_afterExecute (class n) (this n) out e2 = (Thrown err, e3) →
         status r = FAILED ∧ error r = Some err)
    ∧ (status r = COMPLETED →
         ∃ e1 out e2 e3,
           m_beforeExecute (class n) (this n) (resolved_input (this n) (context w))
             (env_resolved n w) = (Returned tt, e1)
           ∧ m_call (class n) (this n) (resolved_input (this n) (context w)) e1
             = (Returned out, e2)
           ∧ m_afterExecute (class n) (this n) out e2 = (Returned tt, e3)
           ∧ output r = Some out ∧ error r = None
           ∧ input r = resolved_input (this n) (context w)
           ∧ w' = mkWorld (published (this n) out (context w)) e3).
Proof.
  destruct (execute_run n w) as (r & w' & Hrun & Hruns).
  exists r, w'. split; [done|]. split; [done|].
  split; [destruct Hruns; simpl; auto|].
  split; [destruct Hruns; simpl; intros; simplify_eq; eauto|].
  split.
  { intros err e1 Hb. destruct Hruns; same_step; done. }
  split.
  { intros e1 err e2 Hb Hc. destruct Hruns; same_step; done. }
  split.
  { intros e1 out e2 err e3 Hb Hc Ha. destruct Hruns; same_step; done. }
  intros Hs. destruct Hruns; simpl in Hs; simplify_eq.
  eexists _, _, _, _. repeat split; eauto.
Qed.

(** C9: a FAILED result does not mean an unchanged context.  When
    [beforeExecute] and [_call] return and [afterExecute] throws, [execute]
    returns a FAILED result with the error attached and no output, while the
    context is the one [publishOutput] left: every declared field of the
    output that is not [undefined] is in the store of the node's category. *)
Theorem failed_after_publish (n : Node) (w : World)
    (e1 : Env) (out : NodeOutput) (e2 : Env) (err : Error) (e3 : Env) :
  m_beforeExecute (class n) (this n) (resolved_input (this n) (context w))
    (env_resolved n w) = (Returned tt, e1) →
  m_call (class n) (this n) (resolved_input (this n) (context w)) e1 = (Returned out, e2) →
  m_afterExecute (class n) (this n) out e2 = (Thrown err, e3) →
  ∃ r,
    NodeBase.execute n w
    = (Returned r, mkWorld (published (this n) out (context w)) e3)
    ∧ status r = FAILED ∧ error r = Some err ∧ output r = None
    ∧ (∀ k v, k ∈ NodeBase.getOutputFields (this n) → out !! k = Some v → v ≠ VUndefined →
         target_store (this n) (published (this n) out (context w)) !! k = Some v).
Proof.
  intros Hb Hc Ha. destruct (execute_run n w) as (r & w' & Hrun & Hruns).
  destruct Hruns; same_step.
  eexists. split; [exact Hrun|]. repeat split.
  intros k v Hk Hv Hd.
  rewrite target_store_published, lookup_union, publishable_lookup, Hv.
  rewrite decide_True by done.
  by destruct (target_store (this n) (context w) !! k).
Qed.

(** The scenario of C9: the hook throws after [a = 1] reached the cache of a
    context that started empty. *)
Lemma failed_after_publish_witness :
  ∃ r w',
    NodeBase.execute after_throws_node empty_world = (Returned r, w')
    ∧ status r = FAILED
    ∧ error r = Some (mkError "afterExecute failed")
    ∧ ctx_cache (context empty_world) !! "a" = None
    ∧ ctx_cache (context w') !! "a" = Some (VNum 1).
Proof.
  destruct (failed_after_publish after_throws_node empty_world
              (emit_env [mkEntry LOG "Node regex-1: Processing workflow beforeExecute"]
                 empty_env)
              output_ab
              (emit_env [mkEntry LOG "Node regex-1: Processing workflow beforeExecute"]
                 empty_env)
              (mkError "afterExecute failed")
              (emit_env [mkEntry LOG "Node regex-1: Processing workflow beforeExecute"]
                 empty_env))
    as (r & Hrun & Hstatus & Herror & _ & Hstored).
  - reflexivity.
  - reflexivity.
  - reflexivity.
  - eexists r, _. split; [exact Hrun|]. split; [exact Hstatus|].
    split; [exact Herror|]. split; [reflexivity|].
    apply (Hstored "a" (VNum 1)).
    + apply list_elem_of_singleton. reflexivity.
    + reflexivity.
    + discriminate.
Defined.

(** ** The output store is write-only for nodes *)

Lemma resolved_input_reads this c1 c2 :
  ctx_input c1 = ctx_input c2 → ctx_cache c1 = ctx_cache c2 →
  resolved_input this c1 = resolved_input this c2.
Proof.
  intros Hi Hc. unfold resolved_input, init_writes, cache_writes. by rewrite Hi, Hc.
Qed.

Lemma missing_warnings_reads this c1 c2 :
  ctx_input c1 = ctx_input c2 → ctx_cache c1 = ctx_cache c2 →
  missing_warnings this c1 = missing_warnings this c2.
Proof. intros Hi Hc. unfold missing_warnings. by rewrite Hi, Hc. Qed.

Lemma published_cache this out c1 c2 :
  ctx_cache c1 = ctx_cache c2 →
  ctx_cache (published this out c1) = ctx_cache (published this out c2).
Proof. intros Hc. unfold published. destruct (category this); simpl; by rewrite Hc. Qed.

(** A run from a world with another output store takes the same steps. *)
Lemma Runs_output_irrelevant n w1 w2 r w1' :
  ctx_input (context w1) = ctx_input (context w2) →
  ctx_cache (context w1) = ctx_cache (context w2) →
  env w1 = env w2 →
  Runs n w1 r w1' →
  ∃ w2', Runs n w2 r w2'
         ∧ env w1' = env w2'
         ∧ ctx_input (context w1') = ctx_input (context w2')
         ∧ ctx_cache (context w1') = ctx_cache (context w2').
Proof.
  intros Hi Hc He Hruns.
  assert (env_resolved n w1 = env_resolved n w2) as Henv.
  { unfold env_resolved. by rewrite (missing_warnings_reads _ _ _ Hi Hc), He. }
  pose proof (resolved_input_reads (this n) _ _ Hi Hc) as Hres.
  destruct Hruns as [err e1 Hb|e1 err e2 Hb Hcall|e1 out e2 err e3 Hb Hcall Ha
                     |e1 out e2 e3 Hb Hcall Ha];
    rewrite Hres, Henv in *.
  - eexists. split.
    + replace (failed_result n w1) with (failed_result n w2)
        by (unfold failed_result; by rewrite He).
      by apply Runs_beforeExecute_throws.
    + done.
  - eexists. split.
    + replace (failed_result n w1) with (failed_result n w2)
        by (unfold failed_result; by rewrite He).
      by eapply Runs_call_throws.
    + done.
  - eexists. split.
    + replace (failed_result n w1) with (failed_result n w2)
        by (unfold failed_result; by rewrite He).
      by eapply Runs_afterExecute_throws.
    + simpl. rewrite !ctx_input_published. split; [done|]. split; [done|].
      by apply published_cache.
  - eexists. split.
    + replace (completed_result n w1) with (completed_result n w2)
        by (unfold completed_result; by rewrite He).
      by eapply Runs_completed.
    + simpl. rewrite !ctx_input_published. split; [done|]. split; [done|].
      by apply published_cache.
Qed.

(** C7: no node reads the output store.  Two contexts with the same input
    store and the same cache resolve to the same input, whatever their
    output stores hold; and, started in the same environment, the whole of
    [execute] returns the same result and leaves the same environment, input
    store and cache. *)
Theorem output_store_never_read (n : Node) (w1 w2 : World) :
  ctx_input (context w1) = ctx_input (context w2) →
  ctx_cache (context w1) = ctx_cache (context w2) →
  (NodeBase.resolveInput (this n) w1).1 = (NodeBase.resolveInput (this n) w2).1
  ∧ (env w1 = env w2 →
     ∃ r w1' w2',
       NodeBase.execute n w1 = (Returned r, w1')
       ∧ NodeBase.execute n w2 = (Returned r, w2')
       ∧ env w1' = env w2'
       ∧ ctx_input (context w1') = ctx_input (context w2')
       ∧ ctx_cache (context w1') = ctx_cache (context w2')).
Proof.
  intros Hi Hc. split.
  - rewrite !resolveInput_run. simpl. by rewrite (resolved_input_reads _ _ _ Hi Hc).
  - intros He.
    destruct (execute_run n w1) as (r1 & w1' & Hrun1 & Hruns1).
    destruct (execute_run n w2) as (r2 & w2' & Hrun2 & Hruns2).
    destruct (Runs_output_irrelevant n w1 w2 r1 w1' Hi Hc He Hruns1)
      as (w2'' & Hruns2' & Henv & Hin & Hcache).
    destruct (Runs_det _ _ _ _ _ _ Hruns2 Hruns2') as [-> ->].
    exists r1, w1', w2''. done.
Qed.

(** The scenario of C7: the output store already holds [userInput] and
    [currentUserInput]; the resolved input is the one of the context with
    an empty output store. *)
Lemma output_store_never_read_witness :
  (NodeBase.resolveInput mapped_node world_hi).1
  = (NodeBase.resolveInput mapped_node world_hi_with_output).1
  ∧ ctx_output (context world_hi) ≠ ctx_output (context world_hi_with_output).
Proof.
  split.
  - apply (output_store_never_read (mkNode UserInputNode.methods mapped_node)
             world_hi world_hi_with_output); reflexivity.
  - intros Heq.
    assert (ctx_output (context world_hi) !! "userInput"
            = ctx_output (context world_hi_with_output) !! "userInput") as Hk
      by (by rewrite Heq).
    vm_compute in Hk. discriminate.
Defined.

(** ** Tool dispatch *)

Lemma executeMethod_not_callable tool methodName params e :
  (∀ method, members tool !! methodName ≠ Some (Callable method)) →
  executeMethod tool methodName params e
  = (Thrown (mkError ("Method " ++ methodName ++ " not found in " ++ toolType tool ++ "Tool")),
     emit_env
       [mkEntry ERROR ("Method lookup failed: " ++ methodName ++ " not found in "
                       ++ className tool);
        mkEntry LOG ("Available methods: " ++ join_names (available_methods tool))] e).
Proof.
  intros Hno. unfold executeMethod.
  destruct (members tool !! methodName) as [[method|v]|] eqn:Hm.
  - by destruct (Hno method).
  - rewrite bind_run. simpl. rewrite bind_run. unfold emit_env, throw. simpl.
    by rewrite <- app_assoc.
  - rewrite bind_run. simpl. rewrite bind_run. unfold emit_env, throw. simpl.
    by rewrite <- app_assoc.
Qed.

Lemma handleError_run {A} tool err methodName e :
  handleError (A := A) tool err methodName e
  = (Thrown err,
     emit_env [mkEntry ERROR ("Error in " ++ toolType tool ++ "." ++ methodName ++ ": "
                              ++ message err)] e).
Proof. done. Qed.

Lemma executeMethod_callable tool methodName params method e :
  members tool !! methodName = Some (Callable method) →
  executeMethod tool methodName params e
  = match method params
            (emit_env [mkEntry LOG ("Executing " ++ toolType tool ++ "." ++ methodName)] e)
    with
    | (Returned v, e') => (Returned v, e')
    | (Thrown err, e') => handleError tool err methodName e'
    end.
Proof.
  intros Hm. unfold executeMethod. rewrite Hm. unfold try_catch. rewrite bind_run.
  cbn [logExecution console_log console_emit modify getToolType].
  fold (emit_env [mkEntry LOG ("Executing " ++ toolType tool ++ "." ++ methodName)] e).
  destruct (method params _) as [[v|err] e']; [done|].
  rewrite bind_run. by rewrite !handleError_run.
Qed.

(** C6: [executeMethod] fails with an error naming the requested method and
    the tool type when the class has no callable of that name.  When the
    callable throws, the outcome is the one of [handleError(error,
    methodName)], which logs and throws the error again, so the call never
    resolves; when the callable returns, its value is the result. *)
Theorem executeMethod_surfaces_failures
    (tool : NodeTool) (methodName : string) (params : list value) (e : Env) :
  ((∀ method, members tool !! methodName ≠ Some (Callable method)) →
     ∃ e', executeMethod tool methodName params e
           = (Thrown (mkError ("Method " ++ methodName ++ " not found in "
                               ++ getToolType tool ++ "Tool")), e'))
  ∧ (∀ method err e',
       members tool !! methodName = Some (Callable method) →
       method params
         (emit_env [mkEntry LOG ("Executing " ++ toolType tool ++ "." ++ methodName)] e)
       = (Thrown err, e') →
       executeMethod tool methodName params e = handleError tool err methodName e'
       ∧ (∃ e'', executeMethod tool methodName params e = (Thrown err, e'')
                 ∧ level <$> last (console e'') = Some ERROR)
       ∧ ∀ v e'', executeMethod tool methodName params e ≠ (Returned v, e''))
  ∧ (∀ method v e',
       members tool !! methodName = Some (Callable method) →
       method params
         (emit_env [mkEntry LOG ("Executing " ++ toolType tool ++ "." ++ methodName)] e)
       = (Returned v, e') →
       executeMethod tool methodName params e = (Returned v, e')).
Proof.
  split; [|split].
  - intros Hno. eexists. by apply executeMethod_not_callable.
  - intros method err e' Hm Hthrow.
    rewrite (executeMethod_callable _ _ _ _ _ Hm), Hthrow.
    split; [done|]. rewrite handleError_run. split.
    + eexists. split; [done|]. simpl. by rewrite last_snoc.
    + intros v e'' Heq. discriminate.
  - intros method v e' Hm Hret.
    by rewrite (executeMethod_callable _ _ _ _ _ Hm), Hret.
Qed.

(** The scenario of C6 on [WorldBookNodeTools]: an unknown method name, and
    a domain method that throws. *)
Lemma executeMethod_surfaces_failures_witness :
  (∃ e', executeMethod failing_tools "noSuchMethod" [] empty_env
         = (Thrown (mkError "Method noSuchMethod not found in worldBookTool"), e'))
  ∧ (∃ e', executeMethod failing_tools "assemblePromptWithWorldBook" [] empty_env
           = (Thrown (mkError "character not found"), e')).
Proof.
  split.
  - apply (proj1 (executeMethod_surfaces_failures failing_tools "noSuchMethod" [] empty_env)).
    intros method. vm_compute. discriminate.
  - destruct (proj1 (proj2 (executeMethod_surfaces_failures failing_tools
                              "assemblePromptWithWorldBook" [] empty_env))
                character_not_found
                (mkError "character not found")
                (emit_env [mkEntry LOG "Executing worldBook.assemblePromptWithWorldBook"]
                   empty_env)) as (_ & (e'' & Hrun & _) & _).
    + reflexivity.
    + reflexivity.
    + exists e''. exact Hrun.
Defined.

(** ** Nodes without a tool class *)

Lemma constructor_unregistered defaultCategory config g :
  registry g !! cfg_name config = None →
  NodeBase.constructor defaultCategory config g
  = (Returned
       {| id := cfg_id config;
          name := cfg_name config;
          category := defaultCategory;
          next := default [] (cfg_next config);
          toolClass := None;
          params :=
            {| initParams := default [] (cfg_initParams config);
               inputFields := default [] (cfg_inputFields config);
               outputFields := default [] (cfg_outputFields config);
               inputMapping := default ∅ (cfg_inputMapping config) |} |},
     mkGlobal (registry g)
       (emit_env [mkEntry WARN ("找不到节点类型的工具类: " ++ cfg_name config)] (genv g))).
Proof.
  intros Hreg. unfold NodeBase.constructor, NodeBase.initializeTools, try_catch.
  rewrite bind_run. cbn [NodeToolRegistry_get gets NodeBase.getName name].
  rewrite Hreg. by rewrite bind_run.
Qed.

Lemma executeTool_unbound this methodName params e :
  toolClass this = None →
  NodeBase.executeTool this methodName params e
  = (Thrown (mkError ("No tool class available for node type: " ++ name this)), e).
Proof. intros Hnone. unfold NodeBase.executeTool. by rewrite Hnone. Qed.

(** [WorldBookNode] built under the unregistered type name [wb]: the base
    constructor warns, the constructor of the class then binds
    [WorldBookNodeTools] itself. *)
Example WorldBookNode_unregistered_run :
  WorldBookNode.constructor character_not_found no_history unregistered_config
    fresh_global
  = (Returned
       (mkNodeData "node-1" "wb" MIDDLE [] (Some failing_tools) (mkParams [] [] [] ∅)),
     mkGlobal {[ "worldBook" := failing_tools ]}
       (mkEnv [mkEntry WARN "找不到节点类型的工具类: wb"] 0 ∅)).
Proof.
  unfold WorldBookNode.constructor. rewrite bind_run.
  cbn [NodeToolRegistry_register modify].
  change (registry fresh_global
          !! getToolType (WorldBookNodeTools character_not_found no_history)) with
    ((∅ : gmap string NodeTool) !! "worldBook").
  rewrite lookup_empty. rewrite bind_run.
  rewrite constructor_unregistered.
  - reflexivity.
  - cbn [registry cfg_name unregistered_config getToolType toolType failing_tools
         WorldBookNodeTools fresh_global].
    rewrite lookup_insert_ne by discriminate. apply lookup_empty.
Qed.

(** C10 as stated does not hold for every node: a [WorldBookNode] built
    under a type name with no registered tool class is constructed with
    only a warning, its name is still unregistered afterwards, and
    [executeTool] reaches the method lookup of [WorldBookNodeTools] and
    resolves instead of rejecting with "No tool class available". *)
Lemma executeTool_rejects_as_stated_fails :
  ∃ this g',
    WorldBookNode.constructor character_not_found no_history unregistered_config
    fresh_global
    = (Returned this, g')
    ∧ registry fresh_global !! cfg_name unregistered_config = None
    ∧ registry g' !! NodeBase.getName this = None
    ∧ console (genv g') = [mkEntry WARN "找不到节点类型的工具类: wb"]
    ∧ NodeBase.executeTool this "getToolType" [] empty_env
      = (Returned (VStr "worldBook"),
         mkEnv [mkEntry LOG "Executing worldBook.getToolType"] 0 ∅)
    ∧ ∀ e', NodeBase.executeTool this "getToolType" [] empty_env
            ≠ (Thrown (mkError ("No tool class available for node type: "
                                ++ NodeBase.getName this)), e').
Proof.
  eexists _, _. split; [apply WorldBookNode_unregistered_run|].
  split; [reflexivity|]. split.
  { cbn [registry NodeBase.getName name]. apply lookup_singleton_ne. discriminate. }
  split; [reflexivity|].
  assert (NodeBase.executeTool
            (mkNodeData "node-1" "wb" MIDDLE [] (Some failing_tools) (mkParams [] [] [] ∅))
            "getToolType" [] empty_env
          = (Returned (VStr "worldBook"),
             mkEnv [mkEntry LOG "Executing worldBook.getToolType"] 0 ∅)) as Hrun.
  { unfold NodeBase.executeTool. cbn [toolClass].
    rewrite (executeMethod_callable failing_tools "getToolType" []
               (fun _ => mret (VStr "worldBook"))); reflexivity. }
  split; [exact Hrun|].
  intros e' Heq. rewrite Hrun in Heq. discriminate.
Qed.

(** C10, amended: a node built by the [NodeBase] constructor alone (as
    [UserInputNode] is) under a type name with no registered tool class is
    constructed with only a warning and has no tool class; for every method
    name and arguments, [executeTool] then rejects with the error naming the
    node's type and leaves the environment untouched, so no method lookup
    was attempted. *)
Theorem executeTool_without_tool_class
    (defaultCategory : NodeCategory) (config : NodeConfig) (g : Global) :
  registry g !! cfg_name config = None →
  ∃ this,
    NodeBase.constructor defaultCategory config g
    = (Returned this,
       mkGlobal (registry g)
         (emit_env [mkEntry WARN ("找不到节点类型的工具类: " ++ cfg_name config)] (genv g)))
    ∧ (defaultCategory = ENTRY →
       UserInputNode.constructor config g
       = (Returned (mkNode UserInputNode.methods this),
          mkGlobal (registry g)
            (emit_env [mkEntry WARN ("找不到节点类型的工具类: " ++ cfg_name config)]
               (genv g))))
    ∧ NodeBase.getName this = cfg_name config
    ∧ toolClass this = None
    ∧ ∀ methodName params e,
        NodeBase.executeTool this methodName params e
        = (Thrown (mkError ("No tool class available for node type: " ++ cfg_name config)),
           e).
Proof.
  intros Hreg. eexists. split; [by apply constructor_unregistered|].
  split.
  { intros ->. unfold UserInputNode.constructor. rewrite bind_run.
    by rewrite constructor_unregistered. }
  split; [done|]. split; [done|].
  intros methodName params e. by apply executeTool_unbound.
Qed.

(** The scenario of C10: a [UserInputNode] built before any tool class was
    registered rejects every tool call. *)
Lemma executeTool_without_tool_class_witness :
  registry fresh_global !! cfg_name unregistered_config = None
  ∧ ∃ this g',
      NodeBase.constructor ENTRY unregistered_config fresh_global = (Returned this, g')
      ∧ NodeBase.executeTool this "assemblePromptWithWorldBook" [] empty_env
        = (Thrown (mkError "No tool class available for node type: wb"), empty_env).
Proof.
  split; [reflexivity|].
  destruct (executeTool_without_tool_class ENTRY unregistered_config fresh_global)
    as (this & Hnew & _ & _ & _ & Hreject).
  - reflexivity.
  - exists this. eexists. split; [exact Hnew|]. apply Hreject.
Defined.

(** * Further properties of the node flow *)

(** ** Node state *)

(** X1: for a key that is not the name of a member of [Object.prototype],
    [setState] followed by [getState] on the same key gives the stored
    value back, except that a stored [null] or [undefined] reads as the
    default; the state of every other key, the console and the clock are
    left as they were. *)
Theorem setState_getState (key : string) (v d : value) (e : Env) :
  ordinary key →
  ∃ e',
    NodeBase.setState key v e = (Returned tt, e')
    ∧ NodeBase.getState key d e'
      = (Returned (match v with VUndefined | VNull => d | _ => v end), e')
    ∧ (∀ k d', k ≠ key → (NodeBase.getState k d' e').1 = (NodeBase.getState k d' e).1)
    ∧ console e' = console e ∧ clock e' = clock e.
Proof.
  intros _.
  eexists. split; [reflexivity|]. split.
  - unfold NodeBase.getState, gets. simpl. rewrite lookup_insert_eq. by destruct v.
  - split; [|done]. intros k d' Hne.
    unfold NodeBase.getState, gets. simpl. by rewrite lookup_insert_ne.
Qed.

(** A stored number is read back; a stored [null] reads as the default. *)
Lemma setState_getState_witness :
  (∃ e', NodeBase.setState "turn" (VNum 3) empty_env = (Returned tt, e')
         ∧ NodeBase.getState "turn" (VNum 0) e' = (Returned (VNum 3), e'))
  ∧ (∃ e', NodeBase.setState "turn" VNull empty_env = (Returned tt, e')
           ∧ NodeBase.getState "turn" (VNum 0) e' = (Returned (VNum 0), e')).
Proof.
  split.
  - destruct (setState_getState "turn" (VNum 3) (VNum 0) empty_env)
      as (e' & Hset & Hget & _); [by_decision|].
    exists e'. split; [exact Hset|exact Hget].
  - destruct (setState_getState "turn" VNull (VNum 0) empty_env)
      as (e' & Hset & Hget & _); [by_decision|].
    exists e'. split; [exact Hset|exact Hget].
Defined.

(** ** Construction *)

Lemma constructor_registered defaultCategory config g tc :
  registry g !! cfg_name config = Some tc →
  NodeBase.constructor defaultCategory config g
  = (Returned
       {| id := cfg_id config;
          name := cfg_name config;
          category := defaultCategory;
          next := default [] (cfg_next config);
          toolClass := Some tc;
          params :=
            {| initParams := default [] (cfg_initParams config);
               inputFields := default [] (cfg_inputFields config);
               outputFields := default [] (cfg_outputFields config);
               inputMapping := default ∅ (cfg_inputMapping config) |} |},
     g).
Proof.
  intros Hreg. unfold NodeBase.constructor, NodeBase.initializeTools, try_catch.
  rewrite bind_run. cbn [NodeToolRegistry_get gets NodeBase.getName name].
  rewrite Hreg. by destruct g.
Qed.

(** X2: when a tool class is registered under the node's name, the base
    constructor binds it without any diagnostic, and [executeTool] is then
    [executeMethod] of that class, for every method name and arguments. *)
Theorem constructor_binds_registered_tool
    (defaultCategory : NodeCategory) (config : NodeConfig) (g : Global) (tc : NodeTool) :
  registry g !! cfg_name config = Some tc →
  ∃ this,
    NodeBase.constructor defaultCategory config g = (Returned this, g)
    ∧ toolClass this = Some tc
    ∧ ∀ methodName params e,
        NodeBase.executeTool this methodName params e
        = executeMethod tc methodName params e.
Proof.
  intros Hreg. eexists. split; [by apply constructor_registered|].
  split; [done|]. done.
Qed.

Lemma constructor_binds_registered_tool_witness :
  ∃ this,
    NodeBase.constructor MIDDLE registered_config registered_global
    = (Returned this, registered_global)
    ∧ NodeBase.executeTool this "version" [] empty_env
      = executeMethod failing_tools "version" [] empty_env.
Proof.
  destruct (constructor_binds_registered_tool MIDDLE registered_config registered_global
              failing_tools) as (this & Hnew & _ & Htool).
  - reflexivity.
  - exists this. split; [exact Hnew|]. apply Htool.
Defined.

(** The base constructor always returns. *)
Lemma constructor_returns defaultCategory config g :
  ∃ tc g',
    NodeBase.constructor defaultCategory config g
    = (Returned
         (mkNodeData (cfg_id config) (cfg_name config) defaultCategory
            (default [] (cfg_next config)) tc
            (mkParams (default [] (cfg_initParams config))
               (default [] (cfg_inputFields config))
               (default [] (cfg_outputFields config))
               (default ∅ (cfg_inputMapping config)))), g')
    ∧ tc = registry g !! cfg_name config
    ∧ registry g' = registry g.
Proof.
  destruct (registry g !! cfg_name config) as [tc|] eqn:Hreg.
  - exists (Some tc), g. by rewrite (constructor_registered _ _ _ tc).
  - eexists None, _. by rewrite constructor_unregistered.
Qed.

(** X3: the constructors of [WorldBookNode] and [PresetNode] always succeed
    and leave the node bound to the tool class of its own type, whatever the
    configured name and whatever the registry holds under that name. *)
Theorem subclass_constructor_binds_own_tools
    (m1 m2 : list value → Eff Env value) (config : NodeConfig) (g : Global) :
  (∃ this g',
     WorldBookNode.constructor m1 m2 config g = (Returned this, g')
     ∧ toolClass this = Some (WorldBookNodeTools m1 m2)
     ∧ category this = MIDDLE
     ∧ id this = cfg_id config ∧ name this = cfg_name config
     ∧ ∀ methodName params e,
         NodeBase.executeTool this methodName params e
         = executeMethod (WorldBookNodeTools m1 m2) methodName params e)
  ∧ (∃ this g',
       PresetNode.constructor m1 m2 config g = (Returned this, g')
       ∧ toolClass this = Some (PresetNodeTools m1 m2)
       ∧ category this = MIDDLE
       ∧ id this = cfg_id config ∧ name this = cfg_name config
       ∧ ∀ methodName params e,
           NodeBase.executeTool this methodName params e
           = executeMethod (PresetNodeTools m1 m2) methodName params e).
Proof.
  split.
  - unfold WorldBookNode.constructor. rewrite bind_run.
    destruct (NodeToolRegistry_register (WorldBookNodeTools m1 m2) g) as [o g1] eqn:Hreg.
    assert (o = Returned tt) as -> by (by inversion Hreg).
    rewrite bind_run.
    destruct (constructor_returns WorldBookNode.getDefaultCategory config g1)
      as (tc & g2 & -> & _ & _).
    eexists _, _. split; [reflexivity|]. done.
  - unfold PresetNode.constructor. rewrite bind_run.
    destruct (NodeToolRegistry_register (PresetNodeTools m1 m2) g) as [o g1] eqn:Hreg.
    assert (o = Returned tt) as -> by (by inversion Hreg).
    rewrite bind_run.
    destruct (constructor_returns PresetNode.getDefaultCategory config g1)
      as (tc & g2 & -> & _ & _).
    eexists _, _. split; [reflexivity|]. done.
Qed.

(** X4: [toJSON] keeps the id, the name, the category and the successors of a
    node but not its declarations: a node rebuilt from the exported
    configuration has no init parameter, no input field, no output field and
    no mapping, so it resolves the empty input without a diagnostic in every
    context. *)
Theorem toJSON_drops_declarations (this : NodeData) (g : Global) :
  ∃ this' g',
    NodeBase.constructor (category this) (NodeBase.toJSON this) g = (Returned this', g')
    ∧ id this' = id this ∧ name this' = name this
    ∧ category this' = category this ∧ next this' = next this
    ∧ params this' = mkParams [] [] [] ∅
    ∧ ∀ w, NodeBase.resolveInput this' w = (Returned ∅, w).
Proof.
  destruct (constructor_returns (category this) (NodeBase.toJSON this) g)
    as (tc & g' & Hnew & _ & _).
  eexists _, _. split; [exact Hnew|]. simpl.
  repeat (split; [done|]).
  intros w. rewrite resolveInput_run. by rewrite emit_nil.
Qed.

(** ** Publication and resolution together *)

Lemma publishable_idemp this output :
  publishable this (publishable this output) = publishable this output.
Proof.
  apply map_eq. intros k. rewrite !publishable_lookup.
  destruct (output !! k) as [v|]; [|done].
  case_decide; [|done]. by rewrite decide_True.
Qed.

Lemma publishable_no_fields this output :
  NodeBase.getOutputFields this = [] → publishable this output = ∅.
Proof.
  intros Hnil. apply map_eq. intros k. rewrite publishable_lookup, lookup_empty, Hnil.
  destruct (output !! k); [|done]. case_decide as Hd; [|done].
  destruct Hd as [Hin _]. inversion Hin.
Qed.

Lemma published_idemp this output c :
  published this output (published this output c) = published this output c.
Proof.
  unfold published. destruct (category this); simpl;
    by rewrite (assoc_L (∪)), (idemp_L (∪)).
Qed.

Lemma published_nothing this output c :
  publishable this output = ∅ → published this output c = c.
Proof.
  intros Hnone. unfold published. rewrite Hnone.
  destruct c. destruct (category this); simpl; by rewrite (left_id_L ∅ (∪)).
Qed.

(** X5: [publishOutput] is idempotent: publishing the same output a second
    time leaves the world that the first publication produced. *)
Theorem publishOutput_idempotent (this : NodeData) (output : NodeOutput) (w : World) :
  ∃ w1,
    NodeBase.publishOutput this output w = (Returned tt, w1)
    ∧ NodeBase.publishOutput this output w1 = (Returned tt, w1).
Proof.
  eexists. split; [apply publishOutput_run|].
  rewrite publishOutput_run. cbn [context env].
  by rewrite !store_into_published, published_idemp.
Qed.

(** X6: what a node that is not an exit node publishes, a later node
    resolves.  When [f] is a declared output field of [a] with a value other
    than [undefined] and an input field of [b] whose destination no other
    input field of [b] shares, and the input fields of [b] and the
    destination of [f] are not names of members of [Object.prototype], then
    after [a] published, [b] resolves the destination of [f] to that
    value. *)
Theorem publish_then_resolve
    (a b : NodeData) (output : NodeOutput) (w : World) (f : string) (v : value) :
  Forall ordinary (NodeBase.getInputFields b) →
  ordinary (destination b f) →
  category a ≠ EXIT →
  f ∈ NodeBase.getOutputFields a →
  output !! f = Some v →
  v ≠ VUndefined →
  f ∈ NodeBase.getInputFields b →
  (∀ g, g ∈ NodeBase.getInputFields b → g ≠ f → destination b g ≠ destination b f) →
  ∃ w1 r w2,
    NodeBase.publishOutput a output w = (Returned tt, w1)
    ∧ NodeBase.resolveInput b w1 = (Returned r, w2)
    ∧ r !! destination b f = Some v.
Proof.
  intros _ _ Hcat Hout Hv Hdef Hin Hfree.
  eexists _, _, _. split; [apply publishOutput_run|].
  split; [apply resolveInput_run|]. cbn [context].
  rewrite store_into_published.
  assert (ctx_cache (published a output (context w)) !! f = Some v) as Hcache.
  { unfold published. destruct (category a); try done; simpl;
      rewrite lookup_union, publishable_lookup, Hv, decide_True by done;
      by destruct (ctx_cache (context w) !! f). }
  apply resolved_input_cache_value; [done|done|].
  intros g v' Hg Hv' Hd. destruct (decide (g = f)) as [->|Hne]; [congruence|].
  by destruct (Hfree g Hg Hne).
Qed.

Lemma publish_then_resolve_witness :
  ∃ w1 r w2,
    NodeBase.publishOutput middle_a output_ab empty_world = (Returned tt, w1)
    ∧ NodeBase.resolveInput consumer_a w1 = (Returned r, w2)
    ∧ r !! "b" = Some (VNum 1).
Proof.
  apply (publish_then_resolve middle_a consumer_a output_ab empty_world "a" (VNum 1)).
  - by_decision.
  - by_decision.
  - discriminate.
  - apply list_elem_of_singleton. reflexivity.
  - reflexivity.
  - discriminate.
  - apply list_elem_of_singleton. reflexivity.
  - intros g Hg Hne. apply list_elem_of_singleton in Hg. congruence.
Defined.

(** X7: what an exit node publishes is never resolved by a later node: after
    the publication of an exit node, every node resolves the same input, with
    the same diagnostics, as before it. *)
Theorem exit_output_not_resolved
    (a b : NodeData) (output : NodeOutput) (w : World) :
  category a = EXIT →
  ∃ w1,
    NodeBase.publishOutput a output w = (Returned tt, w1)
    ∧ (NodeBase.resolveInput b w1).1 = (NodeBase.resolveInput b w).1
    ∧ console (env (NodeBase.resolveInput b w1).2)
      = console (env (NodeBase.resolveInput b w).2).
Proof.
  intros Hexit. eexists. split; [apply publishOutput_run|].
  rewrite !resolveInput_run. cbn [fst snd context env emit emit_env console].
  rewrite store_into_published.
  assert (ctx_input (published a output (context w)) = ctx_input (context w)) as Hi
    by apply ctx_input_published.
  assert (ctx_cache (published a output (context w)) = ctx_cache (context w)) as Hc
    by (unfold published; by rewrite Hexit).
  by rewrite (resolved_input_reads b _ _ Hi Hc), (missing_warnings_reads b _ _ Hi Hc).
Qed.

Lemma exit_output_not_resolved_witness :
  ∃ w1,
    NodeBase.publishOutput exit_a output_ab empty_world = (Returned tt, w1)
    ∧ ctx_output (context w1) !! "a" = Some (VNum 1)
    ∧ (NodeBase.resolveInput consumer_a w1).1 = Returned ∅.
Proof.
  destruct (exit_output_not_resolved exit_a consumer_a output_ab empty_world)
    as (w1 & Hpub & Hres & _).
  - reflexivity.
  - exists w1. split; [exact Hpub|]. split.
    + rewrite publishOutput_run in Hpub. injection Hpub as <-. reflexivity.
    + rewrite Hres. rewrite resolveInput_run. reflexivity.
Defined.

(** X8: in [resolveInput] the last write under a key wins.  When the last
    declared input field and its destination are not names of members of
    [Object.prototype], the value of that field is in the resolved input
    under its destination, whatever an init parameter of that name or an
    earlier input field mapped to the same destination supplied. *)
Theorem resolveInput_last_field_wins
    (this : NodeData) (w : World) (earlier : list string) (f : string) (v : value) :
  ordinary f →
  ordinary (destination this f) →
  NodeBase.getInputFields this = (earlier ++ [f])%list →
  ctx_cache (context w) !! f = Some v →
  ∃ r w',
    NodeBase.resolveInput this w = (Returned r, w')
    ∧ r !! destination this f = Some v.
Proof.
  intros _ _ Hfields Hv. eexists _, _. split; [apply resolveInput_run|].
  rewrite resolved_input_lookup. unfold cache_writes. rewrite Hfields, omap_app.
  rewrite last_write_app. simpl. rewrite Hv. simpl. by rewrite decide_True.
Qed.

Lemma resolveInput_last_field_wins_witness :
  ∃ r w',
    NodeBase.resolveInput colliding_node world_pq = (Returned r, w')
    ∧ r !! "q" = Some (VNum 2).
Proof.
  apply (resolveInput_last_field_wins colliding_node world_pq ["p"] "q" (VNum 2));
    [by_decision|by_decision|reflexivity|reflexivity].
Defined.

(** ** Runs of [execute] *)

(** The run of a node with the methods of the base class. *)
Lemma default_node_run (self : NodeData) (w : World) :
  NodeBase.execute (mkNode UserInputNode.methods self) w
  = (Returned
       (completed_result (mkNode UserInputNode.methods self) w
          (resolved_input self (context w))
          (if decide (NodeBase.getOutputFields self = [])
           then resolved_input self (context w)
           else publishable self (resolved_input self (context w)))
          (clock (env w))),
     mkWorld (published self (resolved_input self (context w)) (context w))
       (emit_env
          (missing_warnings self (context w)
           ++ [mkEntry LOG ("Node " ++ id self ++ ": Processing workflow beforeExecute");
               mkEntry LOG ("Node " ++ id self ++ ": Processing workflow afterExecute")])
          (env w))).
Proof.
  destruct (execute_run (mkNode UserInputNode.methods self) w) as (r & w' & Hrun & Hruns).
  rewrite Hrun.
  assert (∀ out c, published self
                     (if decide (NodeBase.getOutputFields self = [])
                      then out else publishable self out) c
                   = published self out c) as Hpub.
  { intros out c. case_decide as Hnil; [done|].
    unfold published. by rewrite publishable_idemp. }
  assert (∀ x e, UserInputNode.beforeExecute self x e
                 = (Returned tt,
                    emit_env [mkEntry LOG ("Node " ++ id self
                                           ++ ": Processing workflow beforeExecute")] e))
    as Hbefore by done.
  assert (∀ x e, UserInputNode.afterExecute self x e
                 = (Returned tt,
                    emit_env [mkEntry LOG ("Node " ++ id self
                                           ++ ": Processing workflow afterExecute")] e))
    as Hafter by done.
  destruct Hruns as [err e1 Hb|e1 err e2 Hb Hc|e1 out e2 err e3 Hb Hc Ha|e1 out e2 e3 Hb Hc Ha];
    cbn [class this m_beforeExecute m_call m_afterExecute UserInputNode.methods] in *;
    rewrite Hbefore in Hb; try discriminate; injection Hb as <-;
    unfold UserInputNode._call in Hc; rewrite default_call_run in Hc; try discriminate;
    injection Hc as <- <-; rewrite Hafter in Ha; try discriminate; injection Ha as <-.
  rewrite Hpub. f_equal. f_equal.
  unfold env_resolved. cbn [class this]. by rewrite !emit_env_app.
Qed.

(** X9: a node that keeps the methods of the base class, as [UserInputNode]
    does, and whose declared fields and destination keys are not names of
    members of [Object.prototype], never fails.  [execute] returns
    COMPLETED with the resolved input
    as input snapshot; the output is the whole resolved input when no output
    field is declared and its declared fields that are not [undefined]
    otherwise; the context afterwards holds the declared fields of the
    resolved input that are not [undefined] in the store of the node's
    category, and with no declared output field it is unchanged although the
    output echoes the whole input. *)
Theorem default_node_completes (this : NodeData) (w : World) :
  ordinary_inputs this →
  ordinary_outputs this →
  ∃ r w',
    NodeBase.execute (mkNode UserInputNode.methods this) w = (Returned r, w')
    ∧ status r = COMPLETED ∧ error r = None
    ∧ input r = resolved_input this (context w)
    ∧ (NodeBase.getOutputFields this = [] →
         output r = Some (resolved_input this (context w)) ∧ context w' = context w)
    ∧ (NodeBase.getOutputFields this ≠ [] →
         output r = Some (publishable this (resolved_input this (context w))))
    ∧ target_store this (context w')
      = publishable this (resolved_input this (context w)) ∪ target_store this (context w)
    ∧ other_store this (context w') = other_store this (context w)
    ∧ ctx_input (context w') = ctx_input (context w).
Proof.
  intros _ _.
  eexists _, _. split; [apply default_node_run|]. cbn [context].
  split; [done|]. split; [done|]. split; [done|].
  split.
  { intros Hnil. simpl. rewrite decide_True by done. split; [done|].
    apply published_nothing. by apply publishable_no_fields. }
  split.
  { intros Hne. simpl. by rewrite decide_False. }
  split; [apply target_store_published|].
  split; [apply other_store_published|apply ctx_input_published].
Qed.

(** The entry node declaring [x] and [y], run with [x] only: the run
    completes and the output is [{x: 1}]. *)
Lemma default_node_completes_witness :
  ∃ r w',
    NodeBase.execute (mkNode UserInputNode.methods entry_xy) world_x = (Returned r, w')
    ∧ status r = COMPLETED
    ∧ output r = Some {[ "x" := VNum 1 ]}
    ∧ context w' = context world_x.
Proof.
  destruct (default_node_completes entry_xy world_x)
    as (r & w' & Hrun & Hstatus & _ & _ & Hnone & _); [by_decision|by_decision|].
  destruct (Hnone eq_refl) as [Hout Hctx].
  exists r, w'. split; [exact Hrun|]. split; [exact Hstatus|].
  split; [|exact Hctx]. rewrite Hout. reflexivity.
Defined.

(** X10: an entry node without input fields, whose init parameters and
    output fields are not names of members of [Object.prototype], hands the
    run parameters over to the cache: after [execute], the cache holds, on
    top of what it held,
    every parameter of the input store that is declared both as init
    parameter and as output field and is not [undefined], and nothing
    else. *)
Theorem entry_node_seeds_cache (this : NodeData) (w : World) :
  Forall ordinary (NodeBase.getInitParams this) →
  ordinary_outputs this →
  category this = ENTRY →
  NodeBase.getInputFields this = [] →
  ∃ r w',
    NodeBase.execute (mkNode UserInputNode.methods this) w = (Returned r, w')
    ∧ ctx_cache (context w')
      = filter (fun kv => kv.1 ∈ NodeBase.getInitParams this
                          ∧ kv.1 ∈ NodeBase.getOutputFields this
                          ∧ kv.2 ≠ VUndefined) (ctx_input (context w))
        ∪ ctx_cache (context w)
    ∧ ctx_output (context w') = ctx_output (context w).
Proof.
  intros _ _ Hentry Hnil. eexists _, _. split; [apply default_node_run|]. cbn [context].
  unfold published. rewrite Hentry. simpl. split; [|done]. f_equal.
  rewrite (resolved_input_no_input_fields this _ Hnil). unfold publishable.
  apply map_eq. intros k.
  destruct (ctx_input (context w) !! k) as [v|] eqn:Hv.
  - destruct (decide (k ∈ NodeBase.getInitParams this ∧ k ∈ NodeBase.getOutputFields this
                      ∧ v ≠ VUndefined)) as [(Hi & Ho & Hd)|Hno].
    + transitivity (Some v).
      * apply map_lookup_filter_Some. split; [|done].
        by apply map_lookup_filter_Some.
      * symmetry. by apply map_lookup_filter_Some.
    + transitivity (@None value).
      * apply map_lookup_filter_None. right. intros v' Hv' [Ho Hd].
        apply map_lookup_filter_Some in Hv' as [Hv' Hi]. simpl in *.
        apply Hno. split; [done|]. split; [done|]. congruence.
      * symmetry. apply map_lookup_filter_None. right. intros v' Hv'. simpl.
        intros (Hi & Ho & Hd). apply Hno. repeat split; try done. congruence.
  - transitivity (@None value).
    + apply map_lookup_filter_None. left. apply map_lookup_filter_None. by left.
    + symmetry. apply map_lookup_filter_None. by left.
Qed.

Lemma entry_node_seeds_cache_witness :
  ∃ r w',
    NodeBase.execute (mkNode UserInputNode.methods entry_xy) world_x = (Returned r, w')
    ∧ output r = Some {[ "x" := VNum 1 ]}
    ∧ ctx_cache (context w') = ∅.
Proof.
  destruct (entry_node_seeds_cache entry_xy world_x) as (r & w' & Hrun & Hcache & _).
  - by_decision.
  - by_decision.
  - reflexivity.
  - reflexivity.
  - exists r, w'. split; [exact Hrun|].
    rewrite default_node_run in Hrun. injection Hrun as <- <-.
    split; reflexivity.
Defined.

(** X11: [execute] changes the context only by publishing: the input store
    and the store of the other category are never touched, and the context
    is either the one [execute] started from or the one [publishOutput]
    left for the output that [_call] returned.  In particular an exception
    of [beforeExecute] or of [_call] leaves the whole context unchanged,
    with an empty input snapshot in the first case. *)
Theorem execute_changes_context_by_publishing (n : Node) (w : World) :
  ∃ r w',
    NodeBase.execute n w = (Returned r, w')
    ∧ ctx_input (context w') = ctx_input (context w)
    ∧ other_store (this n) (context w') = other_store (this n) (context w)
    ∧ (context w' = context w
       ∨ ∃ e1 out e2,
           m_beforeExecute (class n) (this n) (resolved_input (this n) (context w))
             (env_resolved n w) = (Returned tt, e1)
           ∧ m_call (class n) (this n) (resolved_input (this n) (context w)) e1
             = (Returned out, e2)
           ∧ context w' = published (this n) out (context w))
    ∧ (∀ err e1,
         m_beforeExecute (class n) (this n) (resolved_input (this n) (context w))
           (env_resolved n w) = (Thrown err, e1) →
         context w' = context w ∧ input r = ∅ ∧ output r = None)
    ∧ (∀ e1 err e2,
         m_beforeExecute (class n) (this n) (resolved_input (this n) (context w))
           (env_resolved n w) = (Returned tt, e1) →
         m_call (class n) (this n) (resolved_input (this n) (context w)) e1
           = (Thrown err, e2) →
         context w' = context w ∧ input r = resolved_input (this n) (context w)
         ∧ output r = None).
Proof.
  destruct (execute_run n w) as (r & w' & Hrun & Hruns).
  exists r, w'. split; [done|].
  split; [destruct Hruns; simpl; by rewrite ?ctx_input_published|].
  split; [destruct Hruns; simpl; by rewrite ?other_store_published|].
  split; [destruct Hruns; simpl; eauto 10|].
  split.
  - intros err e1 Hb. destruct Hruns; same_step; done.
  - intros e1 err e2 Hb Hc. destruct Hruns; same_step; done.
Qed.

(** ** The chat history of [WorldBookNodeTools] *)

Lemma slice_from_drop {A} (start : Z) (l : list A) :
  slice_from start l
  = drop (Z.to_nat (if start <? 0
                    then Z.max (Z.of_nat (length l) + start) 0
                    else Z.min start (Z.of_nat (length l)))) l.
Proof. done. Qed.

Lemma truthy_string_true o :
  truthy_string o = true → ∃ s, o = Some s ∧ s ≠ "".
Proof.
  destruct o as [s|]; simpl; [|done]. intros H. exists s. split; [done|].
  apply negb_true_iff, bool_decide_eq_false in H. done.
Qed.

Lemma history_step_eq msgs n node :
  history_step (msgs, n) node
  = ((msgs ++ step_messages n node)%list, n + Z.of_nat (length (step_messages n node))).
Proof.
  unfold history_step, step_messages. cbn [fst snd].
  destruct (bool_decide (parentNodeId node = "root")
            && truthy_string (assistantResponse node)).
  { simpl. rewrite app_nil_r. f_equal. lia. }
  destruct (truthy_string (userInput node)), (truthy_string (assistantResponse node));
    cbn [fst snd length app]; rewrite ?app_nil_r, <- ?app_assoc; simpl;
    rewrite ?Z.add_0_r; f_equal; try done; lia.
Qed.

Lemma step_messages_length n node : (length (step_messages n node) ≤ 2)%nat.
Proof.
  unfold step_messages.
  destruct (bool_decide (parentNodeId node = "root")
            && truthy_string (assistantResponse node)); [simpl; lia|].
  destruct (truthy_string (userInput node)), (truthy_string (assistantResponse node));
    simpl; lia.
Qed.

Lemma step_messages_lookup n node j m :
  step_messages n node !! j = Some m →
  DialogueMessage.id m = n + Z.of_nat j ∧ DialogueMessage.content m ≠ "".
Proof.
  unfold step_messages.
  destruct (bool_decide (parentNodeId node = "root")
            && truthy_string (assistantResponse node)); [done|].
  destruct (truthy_string (userInput node)) eqn:Hu;
    destruct (truthy_string (assistantResponse node)) eqn:Ha;
    try (apply truthy_string_true in Hu as (u & -> & Hune));
    try (apply truthy_string_true in Ha as (a & -> & Hane));
    destruct j as [|[|j]]; intros Hm; simplify_eq/=; (split; [lia|done]).
Qed.

(** The loop keeps [messageId] equal to the number of messages, keeps the
    messages it already has, and gives every new message its position as id
    and a non-empty content. *)
Lemma history_fold_inv path msgs :
  let acc := foldl history_step (msgs, Z.of_nat (length msgs)) path in
  acc.2 = Z.of_nat (length acc.1)
  ∧ (length acc.1 ≤ length msgs + 2 * length path)%nat
  ∧ (∀ i m, acc.1 !! i = Some m → (i < length msgs)%nat → msgs !! i = Some m)
  ∧ (∀ i m, acc.1 !! i = Some m → (length msgs ≤ i)%nat →
            DialogueMessage.id m = Z.of_nat i ∧ DialogueMessage.content m ≠ "").
Proof.
  revert msgs. induction path as [|node path IH]; intros msgs; cbn [foldl].
  - simpl. split; [done|]. split; [lia|]. split; [done|].
    intros i m Hm Hge. apply lookup_lt_Some in Hm. lia.
  - rewrite history_step_eq.
    set (new := step_messages (Z.of_nat (length msgs)) node).
    pose proof (step_messages_length (Z.of_nat (length msgs)) node) as Hlen.
    fold new in Hlen.
    replace (Z.of_nat (length msgs) + Z.of_nat (length new))
      with (Z.of_nat (length (msgs ++ new)%list)) by (rewrite length_app; lia).
    specialize (IH (msgs ++ new)%list). cbv zeta in IH.
    destruct IH as (IH1 & IH2 & IH3 & IH4). cbv zeta.
    pose proof (length_app msgs new) as Happ.
    split; [done|]. split; [simpl; lia|].
    split.
    + intros i m Hm Hlt. rewrite <- (lookup_app_l msgs new) by done.
      apply IH3; [done|]. rewrite length_app. lia.
    + intros i m Hm Hge.
      destruct (decide (i < length (msgs ++ new)%list)%nat) as [Hlt|Hnlt].
      * pose proof (IH3 i m Hm Hlt) as Hold.
        rewrite lookup_app_r in Hold by done.
        destruct (step_messages_lookup _ _ _ _ Hold) as [Hid Hc]. split; [|done].
        rewrite Hid. lia.
      * apply IH4; [done|lia].
Qed.

Lemma collect_messages_ids path i m :
  collect_messages path !! i = Some m →
  DialogueMessage.id m = Z.of_nat i ∧ DialogueMessage.content m ≠ "".
Proof.
  intros Hm. pose proof (history_fold_inv path []) as (_ & _ & _ & H4).
  apply H4; [done|simpl; lia].
Qed.

Lemma collect_messages_length path :
  (length (collect_messages path) ≤ 2 * length path)%nat.
Proof. pose proof (history_fold_inv path []) as (_ & H2 & _). simpl in H2. done. Qed.

(** The run of [getChatHistory] when the tree and the path are found. *)
Lemma getChatHistory_run ops_tree ops_path this characterId contextWindow
    e tree e1 path e2 :
  ops_tree characterId e = (Returned (Some tree), e1) →
  current_nodeId tree ≠ "root" →
  ops_path characterId (current_nodeId tree) e1 = (Returned path, e2) →
  getChatHistory ops_tree ops_path this characterId contextWindow e
  = (Returned (slice_from (- default 5 contextWindow * 2) (collect_messages path)), e2).
Proof.
  intros Htree Hroot Hpath. unfold getChatHistory, try_catch. cbv zeta.
  rewrite bind_run, Htree. rewrite bind_run.
  rewrite bool_decide_eq_true_2 by done. by rewrite Hpath.
Qed.

Lemma slice_from_negative {A} (c : Z) (l : list A) :
  1 ≤ c →
  slice_from (- c * 2) l = drop (length l - Z.to_nat (2 * c)) l.
Proof.
  intros Hc. rewrite slice_from_drop.
  destruct (- c * 2 <? 0) eqn:Hneg; [|apply Z.ltb_ge in Hneg; lia].
  f_equal. lia.
Qed.

Lemma slice_from_nonnegative {A} (c : Z) (l : list A) :
  c ≤ 0 →
  slice_from (- c * 2) l = drop (Z.to_nat (2 * - c)) l.
Proof.
  intros Hc. rewrite slice_from_drop.
  destruct (- c * 2 <? 0) eqn:Hneg; [apply Z.ltb_lt in Hneg; lia|].
  destruct (decide (- c * 2 ≤ Z.of_nat (length l))) as [Hle|Hgt].
  - f_equal. lia.
  - rewrite Z.min_r by lia. rewrite Nat2Z.id.
    rewrite drop_all. symmetry. apply drop_ge. lia.
Qed.

(** X12: with a window of at least one exchange (5 when the argument is left
    out), [getChatHistory] returns the end of the collected history: at most
    [2 * contextWindow] messages, all of them when the history is shorter. *)
Theorem getChatHistory_window
    (ops_tree : string → Eff Env (option DialogueTree))
    (ops_path : string → string → Eff Env (list DialogueNode))
    (this : NodeTool) (characterId : string) (contextWindow : option Z)
    (e : Env) (tree : DialogueTree) (e1 : Env) (path : list DialogueNode) (e2 : Env) :
  1 ≤ default 5 contextWindow →
  ops_tree characterId e = (Returned (Some tree), e1) →
  current_nodeId tree ≠ "root" →
  ops_path characterId (current_nodeId tree) e1 = (Returned path, e2) →
  ∃ msgs,
    getChatHistory ops_tree ops_path this characterId contextWindow e
    = (Returned msgs, e2)
    ∧ msgs `suffix_of` collect_messages path
    ∧ length msgs
      = Nat.min (length (collect_messages path)) (Z.to_nat (2 * default 5 contextWindow)).
Proof.
  intros Hc Htree Hroot Hpath. eexists.
  split; [by eapply getChatHistory_run|].
  rewrite slice_from_negative by done.
  split; [apply suffix_drop|]. rewrite length_drop. lia.
Qed.

Lemma getChatHistory_window_witness :
  ∃ msgs,
    getChatHistory sample_tree_ops sample_path_ops failing_tools "c1" (Some 1) empty_env
    = (Returned msgs, empty_env)
    ∧ length msgs = 2%nat.
Proof.
  destruct (getChatHistory_window sample_tree_ops sample_path_ops failing_tools "c1"
              (Some 1) empty_env (mkDialogueTree "n3") empty_env sample_path empty_env)
    as (msgs & Hrun & _ & Hlen).
  - simpl. lia.
  - reflexivity.
  - discriminate.
  - reflexivity.
  - exists msgs. split; [exact Hrun|]. rewrite Hlen. reflexivity.
Defined.

(** X13: the ids of the returned messages are their positions in the whole
    collected history, not in the returned window: the message at index [i]
    has the id [dropped + i], where [dropped] is the number of messages the
    window left out.  Every message has a non-empty content, and a path of
    [n] nodes gives at most [2 * n] messages. *)
Theorem getChatHistory_ids
    (ops_tree : string → Eff Env (option DialogueTree))
    (ops_path : string → string → Eff Env (list DialogueNode))
    (this : NodeTool) (characterId : string) (contextWindow : option Z)
    (e : Env) (tree : DialogueTree) (e1 : Env) (path : list DialogueNode) (e2 : Env) :
  ops_tree characterId e = (Returned (Some tree), e1) →
  current_nodeId tree ≠ "root" →
  ops_path characterId (current_nodeId tree) e1 = (Returned path, e2) →
  ∃ msgs,
    getChatHistory ops_tree ops_path this characterId contextWindow e
    = (Returned msgs, e2)
    ∧ (length msgs ≤ length (collect_messages path) ≤ 2 * length path)%nat
    ∧ ∀ i m, msgs !! i = Some m →
        DialogueMessage.id m
        = Z.of_nat (length (collect_messages path) - length msgs + i)
        ∧ DialogueMessage.content m ≠ "".
Proof.
  intros Htree Hroot Hpath. eexists.
  split; [by eapply getChatHistory_run|].
  rewrite slice_from_drop.
  set (k := Z.to_nat _). split.
  - split; [rewrite length_drop; lia|apply collect_messages_length].
  - intros i m Hm. rewrite lookup_drop in Hm.
    pose proof (lookup_lt_Some _ _ _ Hm) as Hlt.
    destruct (collect_messages_ids _ _ _ Hm) as [Hid Hc]. split; [|done].
    rewrite Hid, length_drop. f_equal. lia.
Qed.

Lemma getChatHistory_ids_witness :
  ∃ msgs,
    getChatHistory sample_tree_ops sample_path_ops failing_tools "c1" (Some 1) empty_env
    = (Returned msgs, empty_env)
    ∧ DialogueMessage.id <$> msgs = [1; 2].
Proof.
  destruct (getChatHistory_ids sample_tree_ops sample_path_ops failing_tools "c1"
              (Some 1) empty_env (mkDialogueTree "n3") empty_env sample_path empty_env)
    as (msgs & Hrun & _ & _).
  - reflexivity.
  - discriminate.
  - reflexivity.
  - exists msgs. split; [exact Hrun|].
    rewrite (getChatHistory_run sample_tree_ops sample_path_ops failing_tools "c1"
               (Some 1) empty_env (mkDialogueTree "n3") empty_env sample_path empty_env)
      in Hrun; [|reflexivity|discriminate|reflexivity].
    injection Hrun as <-. reflexivity.
Defined.

(** X14: a window of zero does not give an empty history: [slice(-0)] is
    [slice(0)], so [getChatHistory] returns every collected message; and a
    negative window [-k] drops the first [2 * k] messages instead of keeping
    the last ones. *)
Theorem getChatHistory_nonpositive_window
    (ops_tree : string → Eff Env (option DialogueTree))
    (ops_path : string → string → Eff Env (list DialogueNode))
    (this : NodeTool) (characterId : string) (c : Z)
    (e : Env) (tree : DialogueTree) (e1 : Env) (path : list DialogueNode) (e2 : Env) :
  c ≤ 0 →
  ops_tree characterId e = (Returned (Some tree), e1) →
  current_nodeId tree ≠ "root" →
  ops_path characterId (current_nodeId tree) e1 = (Returned path, e2) →
  getChatHistory ops_tree ops_path this characterId (Some c) e
  = (Returned (drop (Z.to_nat (2 * - c)) (collect_messages path)), e2)
  ∧ (c = 0 →
     getChatHistory ops_tree ops_path this characterId (Some c) e
     = (Returned (collect_messages path), e2)).
Proof.
  intros Hc Htree Hroot Hpath.
  rewrite (getChatHistory_run _ _ _ _ _ _ _ _ _ _ Htree Hroot Hpath). simpl default.
  rewrite slice_from_nonnegative by done. split; [done|].
  intros ->. done.
Qed.

Lemma getChatHistory_nonpositive_window_witness :
  ∃ msgs,
    getChatHistory sample_tree_ops sample_path_ops failing_tools "c1" (Some 0) empty_env
    = (Returned msgs, empty_env)
    ∧ length msgs = 3%nat.
Proof.
  destruct (getChatHistory_nonpositive_window sample_tree_ops sample_path_ops failing_tools
              "c1" 0 empty_env (mkDialogueTree "n3") empty_env sample_path empty_env)
    as [_ Hzero].
  - lia.
  - reflexivity.
  - discriminate.
  - reflexivity.
  - eexists. split; [apply Hzero; reflexivity|]. reflexivity.
Defined.

(** X15: without a dialogue tree, or when the current node of the tree is the
    root, [getChatHistory] returns the empty history and does not ask for a
    path: the result is the same for every path operation. *)
Theorem getChatHistory_no_path
    (ops_tree : string → Eff Env (option DialogueTree))
    (ops_path ops_path' : string → string → Eff Env (list DialogueNode))
    (this : NodeTool) (characterId : string) (contextWindow : option Z)
    (e : Env) (tree : option DialogueTree) (e1 : Env) :
  ops_tree characterId e = (Returned tree, e1) →
  (∀ t, tree = Some t → current_nodeId t = "root") →
  getChatHistory ops_tree ops_path this characterId contextWindow e = (Returned [], e1)
  ∧ getChatHistory ops_tree ops_path' this characterId contextWindow e = (Returned [], e1).
Proof.
  intros Htree Hroot.
  assert (∀ ops, getChatHistory ops_tree ops this characterId contextWindow e
                 = (Returned [], e1)) as Hany.
  { intros ops. unfold getChatHistory, try_catch. cbv zeta.
    rewrite bind_run, Htree. destruct tree as [t|]; [|done].
    rewrite bind_run, bool_decide_eq_false_2 by (intros Hne; by apply Hne, Hroot).
    rewrite mret_run. unfold collect_messages. simpl.
    rewrite slice_from_drop. simpl. by rewrite drop_nil. }
  split; apply Hany.
Qed.

Lemma getChatHistory_no_path_witness :
  getChatHistory (fun _ => mret None) sample_path_ops failing_tools "c1" None empty_env
  = (Returned [], empty_env).
Proof.
  apply (getChatHistory_no_path (fun _ => mret None) sample_path_ops sample_path_ops
           failing_tools "c1" None empty_env None empty_env).
  - reflexivity.
  - intros t [=].
Defined.

(** X16: a node directly under the root that carries a response adds nothing
    to the history, not even its user input, wherever it stands in the path:
    [getChatHistory] returns the same messages, with the same ids, as for
    the path without that node. *)
Theorem getChatHistory_skips_opening_node
    (ops_tree : string → Eff Env (option DialogueTree))
    (ops_path ops_path' : string → string → Eff Env (list DialogueNode))
    (this : NodeTool) (characterId : string) (contextWindow : option Z)
    (e : Env) (tree : DialogueTree) (e1 : Env)
    (before : list DialogueNode) (node : DialogueNode) (after : list DialogueNode)
    (e2 : Env) :
  parentNodeId node = "root" →
  truthy_string (assistantResponse node) = true →
  ops_tree characterId e = (Returned (Some tree), e1) →
  current_nodeId tree ≠ "root" →
  ops_path characterId (current_nodeId tree) e1
  = (Returned (before ++ node :: after)%list, e2) →
  ops_path' characterId (current_nodeId tree) e1 = (Returned (before ++ after)%list, e2) →
  getChatHistory ops_tree ops_path this characterId contextWindow e
  = getChatHistory ops_tree ops_path' this characterId contextWindow e.
Proof.
  intros Hparent Hresp Htree Hroot Hpath Hpath'.
  rewrite (getChatHistory_run _ _ _ _ _ _ _ _ _ _ Htree Hroot Hpath).
  rewrite (getChatHistory_run _ _ _ _ _ _ _ _ _ _ Htree Hroot Hpath').
  do 2 f_equal. unfold collect_messages. rewrite !foldl_app. cbn [foldl].
  do 2 f_equal. unfold history_step.
  by rewrite Hresp, bool_decide_eq_true_2.
Qed.

Lemma getChatHistory_skips_opening_node_witness :
  getChatHistory sample_tree_ops sample_path_ops failing_tools "c1" None empty_env
  = getChatHistory sample_tree_ops (fun _ _ => mret (drop 1 sample_path)) failing_tools
      "c1" None empty_env.
Proof.
  apply (getChatHistory_skips_opening_node sample_tree_ops sample_path_ops
           (fun _ _ => mret (drop 1 sample_path)) failing_tools "c1" None empty_env
           (mkDialogueTree "n3") empty_env []
           (mkDialogueNode "root" (Some "hello") (Some "Welcome, traveller."))
           (drop 1 sample_path) empty_env); try reflexivity.
  discriminate.
Defined.

(** ** The prompts of [PresetNodeTools] *)

Lemma read_insert_eq (o : gmap string value) k v : read (<[k := v]> o) k = v.
Proof. unfold read. by rewrite lookup_insert_eq. Qed.

Lemma read_insert_ne (o : gmap string value) k k' v :
  k ≠ k' → read (<[k := v]> o) k' = read o k'.
Proof. intros Hne. unfold read. by rewrite lookup_insert_ne. Qed.

Lemma enrich_prompt_eq character prompt :
  enrich_prompt character prompt
  = match prompt_data character prompt with
    | Some data =>
        if negb (truthy (read prompt "content")) && truthy data
        then <["content" := data]> prompt
        else prompt
    | None => prompt
    end.
Proof. unfold enrich_prompt, prompt_data. cbv zeta. by repeat case_decide. Qed.

Lemma prompt_data_insert_content character prompt data :
  prompt_data character (<["content" := data]> prompt) = prompt_data character prompt.
Proof. unfold prompt_data. by rewrite read_insert_ne. Qed.

Lemma enrich_prompt_idemp character prompt :
  enrich_prompt character (enrich_prompt character prompt) = enrich_prompt character prompt.
Proof.
  rewrite (enrich_prompt_eq character prompt).
  destruct (prompt_data character prompt) as [data|] eqn:Hdata.
  - destruct (negb (truthy (read prompt "content")) && truthy data) eqn:Hfill.
    + apply andb_true_iff in Hfill as [_ Hd].
      rewrite enrich_prompt_eq, prompt_data_insert_content, Hdata, read_insert_eq.
      by rewrite Hd.
    + by rewrite enrich_prompt_eq, Hdata, Hfill.
  - by rewrite enrich_prompt_eq, Hdata.
Qed.

(** X17: [enrichPromptsWithCharacterInfo] is idempotent: enriching prompts
    that were already enriched with the same character changes nothing. *)
Theorem enrichPrompts_idempotent (prompts : list Prompt) (character : Character) :
  enrichPromptsWithCharacterInfo (enrichPromptsWithCharacterInfo prompts character) character
  = enrichPromptsWithCharacterInfo prompts character.
Proof.
  unfold enrichPromptsWithCharacterInfo. rewrite map_map.
  apply map_ext. intros p. apply enrich_prompt_idemp.
Qed.

(** X18: [enrichPromptsWithCharacterInfo] keeps the number and the order of
    the prompts and never overwrites: each prompt keeps every property other
    than [content], a prompt whose content is truthy is returned as it is,
    and so is a prompt whose identifier is none of [charDescription],
    [charPersonality] and [scenario]. *)
Theorem enrichPrompts_preserves (prompts : list Prompt) (character : Character) :
  length (enrichPromptsWithCharacterInfo prompts character) = length prompts
  ∧ ∀ i p, prompts !! i = Some p →
      ∃ p',
        enrichPromptsWithCharacterInfo prompts character !! i = Some p'
        ∧ (∀ k, k ≠ "content" → p' !! k = p !! k)
        ∧ (truthy (read p "content") = true → p' = p)
        ∧ (read p "identifier" ≠ VStr "charDescription" →
           read p "identifier" ≠ VStr "charPersonality" →
           read p "identifier" ≠ VStr "scenario" → p' = p).
Proof.
  unfold enrichPromptsWithCharacterInfo. split; [apply length_map|].
  intros i p Hp. exists (enrich_prompt character p).
  split; [by rewrite list_lookup_fmap, Hp|].
  rewrite enrich_prompt_eq. split; [|split].
  - intros k Hk. destruct (prompt_data character p) as [data|]; [|done].
    destruct (negb (truthy (read p "content")) && truthy data); [|done].
    by rewrite lookup_insert_ne.
  - intros Ht. rewrite Ht. by destruct (prompt_data character p).
  - intros H1 H2 H3. unfold prompt_data. by rewrite !decide_False.
Qed.

(** X19: the filling rule.  A prompt identified as [charDescription] whose
    content is falsy (missing, [undefined], [null], empty) gets the
    description of the character as content when that description is
    truthy, and is returned as it is when the character has none; likewise
    [charPersonality] with the personality and [scenario] with the
    scenario. *)
Theorem enrichPrompts_fills_missing_content
    (prompts : list Prompt) (character : Character) (i : nat) (p : Prompt) (data : value) :
  prompts !! i = Some p →
  truthy (read p "content") = false →
  (read p "identifier" = VStr "charDescription"
   ∧ data = CharacterData.description (characterData character))
  ∨ (read p "identifier" = VStr "charPersonality"
     ∧ data = CharacterData.personality (characterData character))
  ∨ (read p "identifier" = VStr "scenario"
     ∧ data = CharacterData.scenario (characterData character)) →
  enrichPromptsWithCharacterInfo prompts character !! i
  = Some (if truthy data then <["content" := data]> p else p).
Proof.
  intros Hp Hc Hid. unfold enrichPromptsWithCharacterInfo.
  rewrite list_lookup_fmap, Hp. simpl. f_equal.
  rewrite enrich_prompt_eq, Hc. simpl.
  assert (prompt_data character p = Some data) as ->; [|done].
  unfold prompt_data.
  destruct Hid as [[Hid ->]|[[Hid ->]|[Hid ->]]]; rewrite Hid; by repeat case_decide.
Qed.

Lemma enrichPrompts_fills_missing_content_witness :
  enrichPromptsWithCharacterInfo sample_prompts sample_character !! 0%nat
  = Some {[ "identifier" := VStr "charDescription";
            "content" := VStr "A wandering bard." ]}
  ∧ enrichPromptsWithCharacterInfo sample_prompts sample_character !! 2%nat
    = Some {[ "identifier" := VStr "scenario" ]}.
Proof.
  split.
  - rewrite (enrichPrompts_fills_missing_content sample_prompts sample_character 0
               {[ "identifier" := VStr "charDescription"; "content" := VStr "" ]}
               (VStr "A wandering bard.")).
    + reflexivity.
    + reflexivity.
    + reflexivity.
    + left. split; reflexivity.
  - rewrite (enrichPrompts_fills_missing_content sample_prompts sample_character 2
               {[ "identifier" := VStr "scenario" ]} (VStr "")).
    + reflexivity.
    + reflexivity.
    + reflexivity.
    + right. right. split; reflexivity.
Defined.

(** ** The prompt framework of [PresetNodeTools] *)

(** X20: only the first preset whose [enabled] is the boolean [true] counts.
    When there is none, or when that preset has no id, [buildPromptFramework]
    logs that no preset is enabled, never asks for ordered prompts (the
    result is the same for every such operation), hands the empty list to
    the assembler and returns an [undefined] preset id, also when a later
    enabled preset has an id. *)
Theorem buildPromptFramework_without_usable_preset
    (CharacterRecord : Type)
    (getCharacterById : string → Eff Env CharacterRecord)
    (new_Character : CharacterRecord → Eff Env Character)
    (getAllPresets : Eff Env (list Preset.t))
    (getOrderedPrompts getOrderedPrompts' : string → Eff Env (list Prompt))
    (assemblePrompts :
       list Prompt → value → value → value * value * value → value → Eff Env (value * value))
    (this : NodeTool) (characterId : string)
    (language username charName number fastModel systemPresetType : value)
    (e : Env) (record : CharacterRecord) (e1 : Env) (character : Character) (e2 : Env)
    (presets : list Preset.t) (e3 : Env) (messages : value * value) (e5 : Env) :
  getCharacterById characterId e = (Returned record, e1) →
  new_Character record e1 = (Returned character, e2) →
  getAllPresets e2 = (Returned presets, e3) →
  (∀ preset,
     List.find (fun preset => bool_decide (Preset.enabled preset = VBool true)) presets
     = Some preset →
     truthy_string (Preset.id preset) = false) →
  assemblePrompts [] (default_param (VStr "zh") language)
    (default_param (VBool false) fastModel)
    (username, js_or charName (CharacterData.name (characterData character)), number)
    (default_param (VStr "mirror_realm") systemPresetType)
    (emit_env
       [mkEntry LOG ("No enabled preset found, using "
                     ++ to_string (default_param (VStr "mirror_realm") systemPresetType)
                     ++ " system framework for character " ++ characterId)] e3)
  = (Returned messages, e5) →
  buildPromptFramework CharacterRecord getCharacterById new_Character getAllPresets
    getOrderedPrompts assemblePrompts this characterId
    language username charName number fastModel systemPresetType e
  = (Returned (Some (mkPromptFramework messages.1 messages.2 VUndefined)), e5)
  ∧ buildPromptFramework CharacterRecord getCharacterById new_Character getAllPresets
      getOrderedPrompts' assemblePrompts this characterId
      language username charName number fastModel systemPresetType e
    = (Returned (Some (mkPromptFramework messages.1 messages.2 VUndefined)), e5).
Proof.
  intros Hget Hnew Hall Hnone Hassemble.
  assert (∀ ops,
            buildPromptFramework CharacterRecord getCharacterById new_Character
              getAllPresets ops assemblePrompts this characterId
              language username charName number fastModel systemPresetType e
            = (Returned (Some (mkPromptFramework messages.1 messages.2 VUndefined)), e5))
    as Hany; [|by split].
  intros ops. unfold buildPromptFramework, try_catch. cbv zeta.
  rewrite bind_run, Hget, bind_run, Hnew, bind_run, Hall.
  rewrite bind_run.
  destruct (List.find _ presets) as [preset|] eqn:Hfind.
  - rewrite (Hnone preset eq_refl). rewrite bind_run.
    cbn [console_log console_emit modify].
    fold (emit_env
            [mkEntry LOG ("No enabled preset found, using "
                          ++ to_string (default_param (VStr "mirror_realm") systemPresetType)
                          ++ " system framework for character " ++ characterId)] e3).
    rewrite mret_run. cbn [fst snd enrichPromptsWithCharacterInfo map].
    by rewrite bind_run, Hassemble.
  - rewrite bind_run. cbn [console_log console_emit modify].
    fold (emit_env
            [mkEntry LOG ("No enabled preset found, using "
                          ++ to_string (default_param (VStr "mirror_realm") systemPresetType)
                          ++ " system framework for character " ++ characterId)] e3).
    rewrite mret_run. cbn [fst snd enrichPromptsWithCharacterInfo map].
    by rewrite bind_run, Hassemble.
Qed.

Lemma buildPromptFramework_without_usable_preset_witness :
  buildPromptFramework unit sample_getCharacterById sample_new_Character
    (mret masked_presets) sample_getOrderedPrompts sample_assemblePrompts
    failing_tools "c1" VUndefined VUndefined VUndefined VUndefined VUndefined VUndefined
    empty_env
  = (Returned (Some (mkPromptFramework (VNum 0) (VStr "user") VUndefined)),
     mkEnv [mkEntry LOG
              "No enabled preset found, using mirror_realm system framework for character c1"]
       0 ∅).
Proof.
  apply (buildPromptFramework_without_usable_preset unit sample_getCharacterById
           sample_new_Character (mret masked_presets) sample_getOrderedPrompts
           sample_getOrderedPrompts sample_assemblePrompts failing_tools "c1"
           VUndefined VUndefined VUndefined VUndefined VUndefined VUndefined
           empty_env tt empty_env sample_character empty_env masked_presets empty_env
           (VNum 0, VStr "user")).
  - reflexivity.
  - reflexivity.
  - reflexivity.
  - intros preset [= <-]. reflexivity.
  - reflexivity.
Defined.

(** X21: when the first preset whose [enabled] is the boolean [true] has a
    non-empty id, [buildPromptFramework] asks for the ordered prompts of that
    preset, hands them to the assembler after enriching them with the
    character, and returns that id as preset id. *)
Theorem buildPromptFramework_with_preset
    (CharacterRecord : Type)
    (getCharacterById : string → Eff Env CharacterRecord)
    (new_Character : CharacterRecord → Eff Env Character)
    (getAllPresets : Eff Env (list Preset.t))
    (getOrderedPrompts : string → Eff Env (list Prompt))
    (assemblePrompts :
       list Prompt → value → value → value * value * value → value → Eff Env (value * value))
    (this : NodeTool) (characterId : string)
    (language username charName number fastModel systemPresetType : value)
    (e : Env) (record : CharacterRecord) (e1 : Env) (character : Character) (e2 : Env)
    (presets : list Preset.t) (e3 : Env) (preset : Preset.t) (presetId : string)
    (prompts : list Prompt) (e4 : Env) (messages : value * value) (e5 : Env) :
  getCharacterById characterId e = (Returned record, e1) →
  new_Character record e1 = (Returned character, e2) →
  getAllPresets e2 = (Returned presets, e3) →
  List.find (fun preset => bool_decide (Preset.enabled preset = VBool true)) presets
  = Some preset →
  Preset.id preset = Some presetId →
  presetId ≠ "" →
  getOrderedPrompts presetId e3 = (Returned prompts, e4) →
  assemblePrompts (enrichPromptsWithCharacterInfo prompts character)
    (default_param (VStr "zh") language)
    (default_param (VBool false) fastModel)
    (username, js_or charName (CharacterData.name (characterData character)), number)
    (default_param (VStr "mirror_realm") systemPresetType) e4
  = (Returned messages, e5) →
  buildPromptFramework CharacterRecord getCharacterById new_Character getAllPresets
    getOrderedPrompts assemblePrompts this characterId
    language username charName number fastModel systemPresetType e
  = (Returned (Some (mkPromptFramework messages.1 messages.2 (VStr presetId))), e5).
Proof.
  intros Hget Hnew Hall Hfind Hid Hne Hprompts Hassemble.
  unfold buildPromptFramework, try_catch. cbv zeta.
  rewrite bind_run, Hget, bind_run, Hnew, bind_run, Hall.
  rewrite bind_run, Hfind, Hid. cbn [truthy_string default from_option].
  unfold Datatypes.id.
  rewrite bool_decide_eq_false_2 by done. cbn [negb].
  rewrite bind_run, Hprompts, mret_run. cbn [fst snd].
  by rewrite bind_run, Hassemble.
Qed.

Lemma buildPromptFramework_with_preset_witness :
  buildPromptFramework unit sample_getCharacterById sample_new_Character
    (mret usable_presets) sample_getOrderedPrompts sample_assemblePrompts
    failing_tools "c1" VUndefined VUndefined VUndefined VUndefined VUndefined VUndefined
    empty_env
  = (Returned (Some (mkPromptFramework (VNum 3) (VStr "user") (VStr "p1"))), empty_env).
Proof.
  apply (buildPromptFramework_with_preset unit sample_getCharacterById
           sample_new_Character (mret usable_presets) sample_getOrderedPrompts
           sample_assemblePrompts failing_tools "c1"
           VUndefined VUndefined VUndefined VUndefined VUndefined VUndefined
           empty_env tt empty_env sample_character empty_env usable_presets empty_env
           (Preset.mk (Some "p1") (VBool true)) "p1" sample_prompts empty_env
           (VNum 3, VStr "user")); try reflexivity.
  discriminate.
Defined.

(** ** Nodes that call a tool *)

(** The run of [execute] when the hooks are those of the base class and
    [_call] throws. *)
Lemma execute_call_throws (n : Node) (w : World) (err : Error) (e2 : Env) :
  m_beforeExecute (class n) = NodeBase.beforeExecute →
  m_call (class n) (this n) (resolved_input (this n) (context w))
    (emit_env [mkEntry LOG ("Node " ++ id (this n) ++ ": Processing workflow beforeExecute")]
       (env_resolved n w))
  = (Thrown err, e2) →
  NodeBase.execute n w
  = (Returned (failed_result n w (resolved_input (this n) (context w)) err (clock e2)),
     mkWorld (context w) e2).
Proof.
  intros Hbefore Hcall. destruct (execute_run n w) as (r & w' & Hrun & Hruns).
  rewrite Hrun.
  assert (m_beforeExecute (class n) (this n) (resolved_input (this n) (context w))
            (env_resolved n w)
          = (Returned tt,
             emit_env [mkEntry LOG ("Node " ++ id (this n)
                                    ++ ": Processing workflow beforeExecute")]
               (env_resolved n w))) as Hb by (by rewrite Hbefore).
  destruct Hruns; same_step; done.
Qed.

(** X22: the nodes check their required inputs before they call a tool.
    [PresetNode] fails with "Character ID is required" when the resolved
    [characterId] is falsy; [WorldBookNode] fails with "System message is
    required" when the resolved [systemMessage] is falsy, whatever
    [characterId] is, and with "Character ID is required" when only
    [characterId] is falsy; [ContextNode] does the same with [userMessage]
    and [characterId].  In each case [execute] returns FAILED with that
    error, the context is unchanged and the environment holds nothing but the
    diagnostics of the resolution and the log of [beforeExecute]: no tool was
    called. *)
Theorem nodes_check_required_inputs
    (property : value → string → Eff Env value) (d : NodeData) (w : World) :
  (truthy (read (resolved_input d (context w)) "characterId") = false →
     rejected (PresetNode_methods property) d w "Character ID is required for PresetNode")
  ∧ (truthy (read (resolved_input d (context w)) "systemMessage") = false →
       rejected (WorldBookNode_methods property) d w
         "System message is required for WorldBookNode")
  ∧ (truthy (read (resolved_input d (context w)) "systemMessage") = true →
     truthy (read (resolved_input d (context w)) "characterId") = false →
       rejected (WorldBookNode_methods property) d w
         "Character ID is required for WorldBookNode")
  ∧ (truthy (read (resolved_input d (context w)) "userMessage") = false →
       rejected (ContextNode_methods property) d w
         "User message is required for ContextNode")
  ∧ (truthy (read (resolved_input d (context w)) "userMessage") = true →
     truthy (read (resolved_input d (context w)) "characterId") = false →
       rejected (ContextNode_methods property) d w
         "Character ID is required for ContextNode").
Proof.
  assert (∀ methods msg,
            m_beforeExecute methods = NodeBase.beforeExecute →
            (∀ e, m_call methods d (resolved_input d (context w)) e
                  = (Thrown (mkError msg), e)) →
            rejected methods d w msg) as Hrejected.
  { intros methods msg Hbefore Hcall. unfold rejected.
    rewrite (execute_call_throws (mkNode methods d) w (mkError msg)
               (emit_env [mkEntry LOG ("Node " ++ id d
                                       ++ ": Processing workflow beforeExecute")]
                  (env_resolved (mkNode methods d) w))); [|done|apply Hcall].
    unfold env_resolved. cbn [this]. by rewrite emit_env_app. }
  repeat split.
  - intros Hc. apply Hrejected; [done|]. intros e.
    cbn [m_call PresetNode_methods]. unfold PresetNode_call. cbv zeta. by rewrite Hc.
  - intros Hs. apply Hrejected; [done|]. intros e.
    cbn [m_call WorldBookNode_methods]. unfold WorldBookNode_call. cbv zeta. by rewrite Hs.
  - intros Hs Hc. apply Hrejected; [done|]. intros e.
    cbn [m_call WorldBookNode_methods]. unfold WorldBookNode_call. cbv zeta.
    by rewrite Hs, Hc.
  - intros Hu. apply Hrejected; [done|]. intros e.
    cbn [m_call ContextNode_methods]. unfold ContextNode_call. cbv zeta. by rewrite Hu.
  - intros Hu Hc. apply Hrejected; [done|]. intros e.
    cbn [m_call ContextNode_methods]. unfold ContextNode_call. cbv zeta.
    by rewrite Hu, Hc.
Qed.

Lemma nodes_check_required_inputs_witness :
  ∃ r w',
    NodeBase.execute (mkNode (WorldBookNode_methods sample_property) world_book_node)
      empty_world
    = (Returned r, w')
    ∧ status r = FAILED
    ∧ error r = Some (mkError "System message is required for WorldBookNode")
    ∧ context w' = context empty_world.
Proof.
  destruct (nodes_check_required_inputs sample_property world_book_node empty_world)
    as (_ & Hsystem & _).
  eexists _, _. split; [apply Hsystem; reflexivity|]. done.
Defined.

(** X23: a failure of the tool fails the node.  When the inputs that
    [WorldBookNode] requires are truthy and the method
    [assemblePromptWithWorldBook] of its tool class throws for the arguments
    of the node, [execute] returns FAILED with that error (as [handleError]
    raises it again), the context is unchanged and the last console entry is
    the error report. *)
Theorem tool_failure_fails_node
    (property : value → string → Eff Env value) (d : NodeData) (w : World)
    (tc : NodeTool) (method : list value → Eff Env value) (err : Error) (e' : Env) :
  toolClass d = Some tc →
  members tc !! "assemblePromptWithWorldBook" = Some (Callable method) →
  truthy (read (resolved_input d (context w)) "systemMessage") = true →
  truthy (read (resolved_input d (context w)) "characterId") = true →
  method (WorldBookNode_arguments (resolved_input d (context w)))
    (emit_env
       (missing_warnings d (context w)
        ++ [mkEntry LOG ("Node " ++ id d ++ ": Processing workflow beforeExecute");
            mkEntry LOG ("Executing " ++ toolType tc ++ ".assemblePromptWithWorldBook")])
       (env w))
  = (Thrown err, e') →
  ∃ r e'',
    NodeBase.execute (mkNode (WorldBookNode_methods property) d) w
    = (Returned r, mkWorld (context w) e'')
    ∧ status r = FAILED ∧ error r = Some err ∧ output r = None
    ∧ input r = resolved_input d (context w)
    ∧ console e''
      = (console e'
         ++ [mkEntry ERROR ("Error in " ++ toolType tc ++ ".assemblePromptWithWorldBook: "
                            ++ message err)])%list.
Proof.
  intros Htool Hmember Hs Hc Hthrow.
  eexists _, _. split.
  - apply (execute_call_throws (mkNode (WorldBookNode_methods property) d) w err);
      [done|].
    cbn [m_call WorldBookNode_methods class this]. unfold WorldBookNode_call. cbv zeta.
    rewrite Hs, Hc. cbn [negb]. rewrite bind_run.
    unfold NodeBase.executeTool. rewrite Htool.
    rewrite (executeMethod_callable tc _ _ method) by done.
    unfold env_resolved. cbn [this]. rewrite !emit_env_app.
    match goal with
    | |- context [method ?args ?x] =>
        replace (method args x) with (@Thrown value err, e')
          by (symmetry; exact Hthrow)
    end.
    rewrite handleError_run. reflexivity.
  - done.
Qed.

Lemma tool_failure_fails_node_witness :
  ∃ r w',
    NodeBase.execute (mkNode (WorldBookNode_methods sample_property) world_book_node)
      world_ready
    = (Returned r, w')
    ∧ status r = FAILED
    ∧ error r = Some (mkError "character not found")
    ∧ context w' = context world_ready.
Proof.
  destruct (tool_failure_fails_node sample_property world_book_node world_ready
              failing_tools character_not_found (mkError "character not found")
              (emit_env
                 [mkEntry LOG "Node world-book-1: Processing workflow beforeExecute";
                  mkEntry LOG "Executing worldBook.assemblePromptWithWorldBook"]
                 empty_env))
    as (r & e'' & Hrun & Hstatus & Herror & _).
  - reflexivity.
  - reflexivity.
  - reflexivity.
  - reflexivity.
  - reflexivity.
  - exists r. eexists. split; [exact Hrun|]. done.
Defined.

Lemma js_or_idemp v d : js_or (js_or v d) d = js_or v d.
Proof. unfold js_or. destruct (truthy v) eqn:Hv; [by rewrite Hv|]. by destruct (truthy d). Qed.

(** X24: [WorldBookNode] treats a falsy input as a missing one.  Its [_call]
    behaves on every input as on the input with the three defaults written
    out: a [language] that is missing or empty is [zh], a [currentUserInput]
    that is missing is the empty string, and a [contextWindow] that is
    missing or 0 is 5, so a window of 0 cannot be asked for through the
    node. *)
Theorem WorldBookNode_call_defaults
    (property : value → string → Eff Env value) (d : NodeData) (input : NodeInput)
    (e : Env) :
  WorldBookNode_call property d (WorldBookNode_defaults input) e
  = WorldBookNode_call property d input e
  ∧ read (WorldBookNode_defaults (<["contextWindow" := VNum 0]> input)) "contextWindow"
    = VNum 5
  ∧ WorldBookNode_arguments (<["contextWindow" := VNum 0]> input)
    = WorldBookNode_arguments (<["contextWindow" := VNum 5]> input).
Proof.
  split; [|split].
  - unfold WorldBookNode_call, WorldBookNode_defaults. cbv zeta.
    rewrite !read_insert_eq.
    rewrite !(read_insert_ne _ "language") by done.
    rewrite !read_insert_eq.
    rewrite !(read_insert_ne _ "currentUserInput") by done.
    rewrite !read_insert_eq.
    rewrite !(read_insert_ne _ "contextWindow") by done.
    by rewrite !js_or_idemp.
  - unfold WorldBookNode_defaults.
    rewrite !(read_insert_ne _ _ "contextWindow") by done.
    by rewrite !read_insert_eq.
  - unfold WorldBookNode_arguments.
    rewrite !read_insert_eq. by rewrite !(read_insert_ne _ "contextWindow") by done.
Qed.
